(** * The local fallback memory store of [simple_memory.py]

    A shallow embedding of [LocalMemoryFallback] (file-backed record list,
    id assignment, substring search with frequency scoring) and of the
    Python built-ins it calls, followed by the properties of its
    specification.

    Modelling conventions.
    - A Python [str] is a [string] whose characters are the code points
      U+0000 .. U+00FF; [lower], [isspace] follow the Unicode tables on
      that range.
    - A Python [float] score is the exact rational it rounds ([Q]).
    - An exception is a value of [exn]; a method is a function from the
      world (the JSON file, the disk's behaviour on writes, standard
      output) to an outcome and a new world. *)

From Stdlib Require Import String Ascii List Bool Arith ZArith NArith QArith Lia.
From Stdlib Require Import Sorted Permutation DecimalString DecimalNat.
Import ListNotations.
Local Close Scope Q_scope.
Local Open Scope nat_scope.
Local Open Scope string_scope.
Local Open Scope list_scope.

(** ** Python [str] built-ins *)

Module PyStr.

(** [ch.isspace()], as used by [str.split()] with no separator. *)
Definition isspace (c : ascii) : bool :=
  let n := N_of_ascii c in
  ((9 <=? n) && (n <=? 13) || (28 <=? n) && (n <=? 32)
   || (n =? 133) || (n =? 160))%N.

(** [ch.lower()]. *)
Definition lower_char (c : ascii) : ascii :=
  let n := N_of_ascii c in
  if ((65 <=? n) && (n <=? 90)
      || (192 <=? n) && (n <=? 222) && negb (n =? 215))%N
  then ascii_of_N (n + 32) else c.

(** [s.lower()]. *)
Fixpoint lower (s : string) : string :=
  match s with
  | EmptyString => EmptyString
  | String c t => String (lower_char c) (lower t)
  end.

(** [sub in s]. *)
Fixpoint contains (sub s : string) : bool :=
  if prefix sub s then true
  else match s with
       | EmptyString => false
       | String _ t => contains sub t
       end.

(** The left-to-right scan of [s.count(sub)] for a non-empty [sub]:
    [skip] characters are still covered by the last occurrence counted. *)
Fixpoint count_scan (sub : string) (skip : nat) (s : string) : nat :=
  match s with
  | EmptyString => 0
  | String _ t =>
      match skip with
      | S k => count_scan sub k t
      | O => if prefix sub s
             then S (count_scan sub (String.length sub - 1) t)
             else count_scan sub 0 t
      end
  end.

(** [s.count(sub)]: non-overlapping occurrences; [len(s) + 1] for the
    empty [sub]. *)
Definition count (s sub : string) : nat :=
  match sub with
  | EmptyString => S (String.length s)
  | String _ _ => count_scan sub 0 s
  end.

Definition flush (cur : string) : list string :=
  match cur with
  | EmptyString => []
  | String _ _ => [cur]
  end.

Fixpoint split_from (cur : string) (s : string) : list string :=
  match s with
  | EmptyString => flush cur
  | String c t =>
      if isspace c then flush cur ++ split_from EmptyString t
      else split_from (cur ++ String c EmptyString)%string t
  end.

(** [s.split()]: the maximal runs of non-whitespace characters. *)
Definition split (s : string) : list string := split_from EmptyString s.

(** Every character of [s] is whitespace. *)
Fixpoint all_space (s : string) : bool :=
  match s with
  | EmptyString => true
  | String c t => isspace c && all_space t
  end.

(** [str(n)] for a non-negative [int]. *)
Definition str_of_nat (n : nat) : string :=
  NilEmpty.string_of_uint (Nat.to_uint n).

(** [int(s)] on a string of decimal digits. *)
Definition nat_of_str (s : string) : option nat :=
  option_map Nat.of_uint (NilEmpty.uint_of_string s).

(** [l[:stop]]. *)
Definition slice_to {A : Type} (l : list A) (stop : Z) : list A :=
  if (0 <=? stop)%Z then firstn (Z.to_nat stop) l
  else firstn (List.length l - Z.to_nat (- stop)) l.

End PyStr.

(** ** Data model *)

(** A JSON value, as [json.load] returns it and [json.dump] accepts it. *)
#[local] Unset Elimination Schemes.
Inductive json : Type :=
| JNull
| JBool (b : bool)
| JNum (z : Z)
| JStr (s : string)
| JArr (items : list json)
| JObj (fields : list (string * json)).
#[local] Set Elimination Schemes.

Definition Metadata : Type := list (string * json).

(** One element of the store file: the dict built by [store]. *)
Record Memory : Type := mkMemory {
  mem_id : string;
  mem_content : string;
  mem_metadata : Metadata;
  mem_timestamp : string
}.

(** One element of a search result: the dict built by [search_local]. *)
Record Match : Type := mkMatch {
  m_content : string;
  m_score : Q;
  m_id : string
}.

Inductive exn : Type :=
| ZeroDivisionError
| AttributeError (attr : string)
| OtherError (msg : string).

Inductive outcome (A : Type) : Type :=
| Ok (a : A)
| Raise (e : exn).
Arguments Ok {A} a.
Arguments Raise {A} e.

(** [memories.json]: missing, present but not readable as JSON, or a JSON
    array of records. *)
Inductive FileState : Type :=
| Absent
| Corrupt
| Stored (ms : list Memory).

(** How a write to [memories.json] fails, with the text of the exception:
    [open(..., 'w')] raises and the file is untouched, or [json.dump]
    raises after the file was truncated. *)
Inductive WriteFault : Type :=
| OpenFails (msg : string)
| DumpFails (msg : string).

Definition fault_msg (f : WriteFault) : string :=
  match f with
  | OpenFails msg => msg
  | DumpFails msg => msg
  end.

Record World : Type := mkWorld {
  memory_file : FileState;
  write_fault : option WriteFault;
  stdout : list string
}.

(** The attributes of the class [Path] that [store] looks up: [None] when
    the class has no such attribute, otherwise what calling it does. *)
Record PathClass : Type := mkPathClass {
  attr_ctime : option (string -> outcome string);
  attr_now : option (outcome string)
}.

(** [pathlib.Path] has neither a [ctime] nor a [now] attribute. *)
Definition pathlib_Path : PathClass := mkPathClass None None.

(** ** Methods as state-and-exception computations *)

Definition M (A : Type) : Type := World -> outcome A * World.

Definition ret {A : Type} (a : A) : M A := fun w => (Ok a, w).

Definition bind {A B : Type} (c : M A) (k : A -> M B) : M B :=
  fun w =>
    match c w with
    | (Ok a, w') => k a w'
    | (Raise e, w') => (Raise e, w')
    end.

Definition lift {A : Type} (o : outcome A) : M A := fun w => (o, w).

Notation "x <- c ;; k" := (bind c (fun x => k))
  (at level 61, c at next level, right associativity).
Notation "c ;;; k" := (bind c (fun _ => k))
  (at level 61, right associativity).

(** A [for] loop whose body may raise, threading the loop's variables. *)
Fixpoint for_each {A S : Type} (body : S -> A -> outcome S)
    (l : list A) (s : S) : outcome S :=
  match l with
  | [] => Ok s
  | x :: t =>
      match body s x with
      | Ok s' => for_each body t s'
      | Raise e => Raise e
      end
  end.

(** [a / b] on non-negative [int]s. *)
Definition true_div (a b : nat) : outcome Q :=
  match b with
  | O => Raise ZeroDivisionError
  | S _ => Ok (Z.of_nat a # Pos.of_nat b)%Q
  end.

(** [l.sort(key=key, reverse=True)]: the sort is stable, and [reverse]
    keeps the original order of elements with equal keys. *)
Fixpoint insert_desc {A : Type} (key : A -> Q) (x : A) (l : list A) : list A :=
  match l with
  | [] => [x]
  | y :: t =>
      if Qle_bool (key y) (key x) then x :: l
      else y :: insert_desc key x t
  end.

Definition sort_reverse {A : Type} (key : A -> Q) (l : list A) : list A :=
  fold_right (insert_desc key) [] l.

Module LocalMemoryFallback.

Import PyStr.

Definition _load_memories : M (list Memory) :=
  fun w =>
    match memory_file w with
    | Stored ms => (Ok ms, w)
    | Corrupt => (Ok [], w)
    | Absent => (Ok [], w)
    end.

Definition _save_memories (memories : list Memory) : M unit :=
  fun w =>
    match write_fault w with
    | None => (Ok tt, mkWorld (Stored memories) (write_fault w) (stdout w))
    | Some (OpenFails e) =>
        (Ok tt, mkWorld (memory_file w) (write_fault w)
                  (stdout w ++ [("Failed to save memories: " ++ e)%string]))
    | Some (DumpFails e) =>
        (Ok tt, mkWorld Corrupt (write_fault w)
                  (stdout w ++ [("Failed to save memories: " ++ e)%string]))
    end.

(** [str(Path.ctime(Path.now()) if hasattr(Path, 'ctime') else 'unknown')] *)
Definition timestamp (P : PathClass) : outcome string :=
  match attr_ctime P with
  | Some ctime =>
      match attr_now P with
      | Some (Ok t) => ctime t
      | Some (Raise e) => Raise e
      | None => Raise (AttributeError "now")
      end
  | None => Ok "unknown"
  end.

Definition store (P : PathClass) (content : string) (metadata : Metadata)
  : M string :=
  memories <- _load_memories ;;
  let memory_id := ("local_" ++ str_of_nat (List.length memories + 1))%string in
  ts <- lift (timestamp P) ;;
  let new_memory := mkMemory memory_id content metadata ts in
  _save_memories (memories ++ [new_memory]) ;;;
  ret memory_id.

(** [content.count(query_lower) / len(content.split()) if content else 0] *)
Definition score (query_lower content : string) : outcome Q :=
  match content with
  | EmptyString => Ok 0%Q
  | String _ _ =>
      true_div (count content query_lower) (List.length (split content))
  end.

(** The body of the loop over [memories]. *)
Definition search_step (query_lower : string) (matches : list Match)
    (memory : Memory) : outcome (list Match) :=
  let content := lower (mem_content memory) in
  if contains query_lower content then
    match score query_lower content with
    | Ok sc => Ok (matches ++ [mkMatch (mem_content memory) sc (mem_id memory)])
    | Raise e => Raise e
    end
  else Ok matches.

Definition search_local (query : string) (limit : Z) : M (list Match) :=
  memories <- _load_memories ;;
  let query_lower := lower query in
  matches <- lift (for_each (search_step query_lower) memories []) ;;
  ret (slice_to (sort_reverse m_score matches) limit).

Definition get_all_local : M (list Memory) := _load_memories.

End LocalMemoryFallback.

Import PyStr LocalMemoryFallback.

(** A world with a working disk and nothing printed yet. *)
Definition fresh (f : FileState) : World := mkWorld f None [].

(** Serial calls of [store], one per element of [inputs], collecting the
    ids returned. *)
Fixpoint store_all (P : PathClass) (inputs : list (string * Metadata))
  : M (list string) :=
  match inputs with
  | [] => ret []
  | (content, metadata) :: rest =>
      i <- store P content metadata ;;
      ids <- store_all P rest ;;
      ret (i :: ids)
  end.

Definition react : string :=
  "We decided to use React for the frontend framework".

(** ** More Python built-ins *)

Module PyBuiltins.

Import PyStr.

(** [s.lstrip()], [s.rstrip()], [s.strip()]. *)
Fixpoint lstrip (s : string) : string :=
  match s with
  | EmptyString => EmptyString
  | String c t => if isspace c then lstrip t else s
  end.

Fixpoint rstrip (s : string) : string :=
  match s with
  | EmptyString => EmptyString
  | String c t =>
      match rstrip t with
      | EmptyString => if isspace c then EmptyString else String c EmptyString
      | String d r => String c (String d r)
      end
  end.

Definition strip (s : string) : string := rstrip (lstrip s).

(** The scan of [s.split(sep)] for a non-empty [sep]: [cur] is the piece
    being read, [skip] characters still belong to the last separator. *)
Fixpoint split_scan (sep : string) (skip : nat) (cur : string) (s : string)
  : list string :=
  match s with
  | EmptyString => [cur]
  | String c t =>
      match skip with
      | S k => split_scan sep k cur t
      | O => if prefix sep s
             then cur :: split_scan sep (String.length sep - 1) EmptyString t
             else split_scan sep 0 (cur ++ String c EmptyString)%string t
      end
  end.

(** [s.split(sep)]; the empty separator is a [ValueError]. *)
Definition split_sep (s sep : string) : outcome (list string) :=
  match sep with
  | EmptyString => Raise (OtherError "empty separator")
  | String _ _ => Ok (split_scan sep 0 EmptyString s)
  end.

(** [sep.join(parts)]. *)
Fixpoint join (sep : string) (parts : list string) : string :=
  match parts with
  | [] => EmptyString
  | [x] => x
  | x :: t => (x ++ sep ++ join sep t)%string
  end.

(** [enumerate(l, start)]. *)
Fixpoint enumerate {A : Type} (start : nat) (l : list A) : list (nat * A) :=
  match l with
  | [] => []
  | x :: t => (start, x) :: enumerate (S start) t
  end.

(** [str(e)] for the exceptions of this program. *)
Definition exn_str (e : exn) : string :=
  match e with
  | ZeroDivisionError => "division by zero"
  | AttributeError attr =>
      ("type object 'Path' has no attribute '" ++ attr ++ "'")%string
  | OtherError msg => msg
  end.

(** [try: body  except Exception as e: handler(e)]. *)
Definition try_except {A : Type} (body : M A) (handler : exn -> M A) : M A :=
  fun w =>
    match body w with
    | (Ok a, w') => (Ok a, w')
    | (Raise e, w') => handler e w'
    end.

Definition print (line : string) : M unit :=
  fun w => (Ok tt, mkWorld (memory_file w) (write_fault w) (stdout w ++ [line])).

(** The one-character string of a line feed. *)
Definition newline : string := String (ascii_of_nat 10) EmptyString.

End PyBuiltins.

Import PyBuiltins.

(** ** [SimpleMemory] over the local fallback

    The methods of [SimpleMemory] when [self.client] is a
    [LocalMemoryFallback]: that object has no attribute [add] or [search],
    so each [hasattr] test is false and the [else] branch runs.
    [Path] is [pathlib.Path]. *)

Module SimpleMemory.

(** [metadata or {}]. *)
Definition or_empty (metadata : option Metadata) : Metadata :=
  match metadata with
  | Some (x :: t) => x :: t
  | Some [] => []
  | None => []
  end.

Definition add (content : string) (metadata : option Metadata) : M string :=
  try_except
    (store pathlib_Path content (or_empty metadata))
    (fun e => print ("Memory add failed: " ++ exn_str e)%string ;;; ret "error").

Definition search (query : string) (limit : Z) : M (list Match) :=
  try_except
    (search_local query limit)
    (fun e => print ("Memory search failed: " ++ exn_str e)%string ;;; ret []).

(** The body of the loop over [enumerate(results[:limit], 1)]. *)
Definition context_step (context_parts : list string) (item : nat * Match)
  : outcome (list string) :=
  let (i, result) := item in
  let content := m_content result in
  match content with
  | EmptyString => Ok context_parts
  | String _ _ =>
      Ok (context_parts ++ [(str_of_nat i ++ ". " ++ content)%string])
  end.

Definition get_context (topic : string) (limit : Z) : M string :=
  results <- search topic limit ;;
  match results with
  | [] => ret ("No memory found for: " ++ topic)%string
  | _ :: _ =>
      context_parts <-
        lift (for_each context_step (enumerate 1 (slice_to results limit)) []) ;;
      match context_parts with
      | _ :: _ =>
          ret ("Relevant context for '" ++ topic ++ "':" ++ newline
               ++ join newline context_parts)%string
      | [] => ret ("No relevant context found for: " ++ topic)%string
      end
  end.

End SimpleMemory.

(** The module-level convenience functions, on the global [memory]. *)

Definition remember (text : string) (tags : option (list string)) : M string :=
  let metadata :=
    match tags with
    | Some (t :: ts) => [("tags", JArr (map JStr (t :: ts)))]
    | Some [] => []
    | None => []
    end in
  SimpleMemory.add text (Some metadata).

Definition search_memory (query : string) (limit : Z) : M (list Match) :=
  SimpleMemory.search query limit.

(** ** The web interface of [ui.py] *)

Module UI.

(** A value handed to a template. *)
Inductive TemplateArg : Type :=
| AStr (s : string)
| AMatches (results : list Match).

(** What a view returns: [render_template(name, **context)],
    [redirect(url_for(endpoint))], or [jsonify(body), status]. *)
Inductive Response : Type :=
| render_template (name : string) (context : list (string * TemplateArg))
| redirect_to (endpoint : string)
| jsonify (body : list (string * json)) (status : nat).

(** [request.form.get(key, default)], [request.args.get(key, default)]. *)
Fixpoint field_get (fields : list (string * string)) (key default : string)
  : string :=
  match fields with
  | [] => default
  | (k, v) :: rest => if (k =? key)%string then v else field_get rest key default
  end.

(** [[tag.strip() for tag in pieces if tag.strip()]]. *)
Fixpoint stripped_tags (pieces : list string) : list string :=
  match pieces with
  | [] => []
  | tag :: rest =>
      match strip tag with
      | EmptyString => stripped_tags rest
      | String c t => String c t :: stripped_tags rest
      end
  end.

(** The view of [/add]. *)
Definition add_memory (method : string) (form : list (string * string))
  : M Response :=
  if (method =? "POST")%string then
    let content := strip (field_get form "content" "") in
    let tags_str := strip (field_get form "tags" "") in
    match content with
    | EmptyString =>
        ret (render_template "add.html"
               [("error", AStr "Content is required")])
    | String _ _ =>
        try_except
          (tags <- match tags_str with
                   | EmptyString => ret []
                   | String _ _ =>
                       pieces <- lift (split_sep tags_str ",") ;;
                       ret (stripped_tags pieces)
                   end ;;
           result <- remember content (Some tags) ;;
           ret (redirect_to "index"))
          (fun e =>
             ret (render_template "add.html"
                    [("error", AStr (exn_str e)); ("content", AStr content);
                     ("tags", AStr tags_str)]))
    end
  else ret (render_template "add.html" []).

(** The view of [/search]. *)
Definition search_page (args : list (string * string)) : M Response :=
  let query := field_get args "q" "" in
  match query with
  | EmptyString =>
      ret (render_template "search.html"
             [("query", AStr query); ("results", AMatches [])])
  | String _ _ =>
      try_except
        (results <- search_memory query 20 ;;
         ret (render_template "search.html"
                [("query", AStr query); ("results", AMatches results)]))
        (fun e =>
           ret (render_template "search.html"
                  [("query", AStr query); ("results", AMatches []);
                   ("error", AStr (exn_str e))]))
  end.

(** [memory_file.exists()]. *)
Definition file_exists : M bool :=
  fun w =>
    match memory_file w with
    | Absent => (Ok false, w)
    | Corrupt => (Ok true, w)
    | Stored _ => (Ok true, w)
    end.

(** [with open(memory_file, 'w') as f: json.dump([], f)]. *)
Definition dump_empty_list : M unit :=
  fun w =>
    match write_fault w with
    | None => (Ok tt, mkWorld (Stored []) (write_fault w) (stdout w))
    | Some (OpenFails e) => (Raise (OtherError e), w)
    | Some (DumpFails e) =>
        (Raise (OtherError e), mkWorld Corrupt (write_fault w) (stdout w))
    end.

(** The view of [/api/clear]. *)
Definition api_clear : M Response :=
  try_except
    (present <- file_exists ;;
     if (present : bool) then
       dump_empty_list ;;;
       ret (jsonify [("success", JBool true);
                     ("message", JStr "All memories cleared")] 200)
     else
       ret (jsonify [("success", JBool true);
                     ("message", JStr "No memories to clear")] 200))
    (fun e => ret (jsonify [("error", JStr (exn_str e))] 500)).

(** [find_available_port(start_port)] of the start-up script;
    [connect_ex p] is what [sock.connect_ex(('127.0.0.1', p))] returns or
    raises, and [n] counts the ports of the range still to try. *)
Fixpoint scan_ports (connect_ex : Z -> outcome Z) (p : Z) (n : nat)
  : outcome (option Z) :=
  match n with
  | O => Ok None
  | S k =>
      match connect_ex p with
      | Raise e => Raise e
      | Ok result =>
          if (result =? 0)%Z then scan_ports connect_ex (p + 1) k
          else Ok (Some p)
      end
  end.

Definition find_available_port (connect_ex : Z -> outcome Z) (start_port : Z)
  : outcome (option Z) :=
  scan_ports connect_ex start_port 10.

End UI.

(** ** Vocabulary of the statements *)

(** [a] may stand before [b] in a list sorted by descending key. *)
Definition desc {A : Type} (key : A -> Q) (a b : A) : Prop :=
  (key b <= key a)%Q.

(** The elements whose key equals [k]. *)
Definition same_key {A : Type} (key : A -> Q) (k : Q) (a : A) : bool :=
  Qeq_bool (key a) k.

(** The record's lower-cased content contains the lower-cased query. *)
Definition matching (query : string) (m : Memory) : bool :=
  contains (lower query) (lower (mem_content m)).

(** Non-empty content without a single word. *)
Definition wordless (content : string) : bool :=
  match content with
  | EmptyString => false
  | String _ _ => all_space content
  end.

(** The score as the specification words it: occurrences of the
    lower-cased query in the lower-cased content over the number of
    whitespace-separated words of the content, 0 for empty content. *)
Definition score_formula (query content : string) : Q :=
  match content with
  | EmptyString => 0%Q
  | String _ _ =>
      (Z.of_nat (count (lower content) (lower query))
       # Pos.of_nat (List.length (split content)))%Q
  end.

Definition entry (query : string) (m : Memory) : Match :=
  mkMatch (mem_content m) (score_formula query (mem_content m)) (mem_id m).

(** The record does not make the score computation divide by zero. *)
Definition scorable (query : string) (m : Memory) : bool :=
  negb (matching query m && wordless (mem_content m)).

(** What [_load_memories] returns in a world. *)
Definition loaded (w : World) : list Memory :=
  match memory_file w with
  | Stored ms => ms
  | Corrupt => []
  | Absent => []
  end.

(** The id [store] gives the [n]-th record. *)
Definition local_id (n : nat) : string := ("local_" ++ str_of_nat n)%string.

(** The number written after ["local_"] in an id. *)
Definition id_suffix (i : string) : option nat :=
  if prefix "local_" i
  then nat_of_str (substring 6 (String.length i - 6) i)
  else None.

(** The record [store] builds in world [w] when [Path] has no [ctime]. *)
Definition new_record (w : World) (content : string) (metadata : Metadata)
  : Memory :=
  mkMemory (local_id (List.length (loaded w) + 1)) content metadata "unknown".

(** The ids in the file are local_1, local_2, ... in file order. *)
Definition numbered (w : World) : Prop :=
  map mem_id (loaded w) = map local_id (seq 1 (List.length (loaded w))).

(** No stored content is non-empty whitespace. *)
Definition searchable (w : World) : Prop :=
  forall m, In m (loaded w) -> wordless (mem_content m) = false.

(** World [w] after [line] was printed. *)
Definition printed (line : string) (w : World) : World :=
  mkWorld (memory_file w) (write_fault w) (stdout w ++ [line]).

(** The lines "1. ...", "2. ..." for the entries [shown], in order. *)
Definition numbered_lines (shown : list Match) : list string :=
  map (fun item : nat * Match =>
         (str_of_nat (fst item) ++ ". " ++ m_content (snd item))%string)
    (enumerate 1 shown).

(** The text [get_context] builds from the entries it lists. *)
Definition context_text (topic : string) (shown : list Match) : string :=
  match numbered_lines shown with
  | [] => ("No relevant context found for: " ++ topic)%string
  | line :: more =>
      ("Relevant context for '" ++ topic ++ "':" ++ newline
       ++ join newline (line :: more))%string
  end.


(** The form of a POST to [/add]. *)
Definition add_form (content tags : string) : list (string * string) :=
  [("content", content); ("tags", tags)].

(** The tags [add_memory] reads from the field [tags]. *)
Definition parsed_tags (tags_field : string) : list string :=
  match strip tags_field with
  | EmptyString => []
  | String c t => UI.stripped_tags (split_scan "," 0 "" (String c t))
  end.

(** The metadata [remember] builds from a list of tags. *)
Definition tags_metadata (tags : list string) : Metadata :=
  match tags with
  | [] => []
  | t :: ts => [("tags", JArr (map JStr (t :: ts)))]
  end.

(** The field [content] of a form, "" when missing. *)
Definition field_get_content (form : list (string * string)) : string :=
  UI.field_get form "content" "".

(** Worlds used as examples. *)

Definition alpha_store : World :=
  fresh (Stored [mkMemory "local_1" "alpha beta alpha" [] "unknown";
                 mkMemory "local_2" "Gamma delta" [] "unknown";
                 mkMemory "local_3" "" [] "unknown"]).

Definition mixed_store : World :=
  fresh (Stored [mkMemory "local_1" "Use React" [] "unknown";
                 mkMemory "local_2" "PostgreSQL database" [] "unknown";
                 mkMemory "local_3" "react react native" [] "unknown";
                 mkMemory "local_4" "we like REACT a lot" [] "unknown"]).

Definition tied_store : World :=
  fresh (Stored [mkMemory "local_1" "red apple" [] "unknown";
                 mkMemory "local_2" "apple pie apple tart" [] "unknown";
                 mkMemory "local_3" "green APPLE" [] "unknown";
                 mkMemory "local_4" "apple" [] "unknown";
                 mkMemory "local_5" "Apple juice" [] "unknown"]).

Definition blank_store : World :=
  fresh (Stored [mkMemory "local_1" "alpha beta" [] "unknown";
                 mkMemory "local_2" " " [] "unknown"]).

Definition noted_store : World :=
  fresh (Stored [mkMemory "local_1" "Database uses PostgreSQL" [] "unknown"]).

Definition read_only_disk : World :=
  mkWorld Absent (Some (OpenFails "[Errno 13] Permission denied")) [].

Definition unreadable_store : World := fresh Corrupt.

Definition full_disk : World :=
  mkWorld (Stored [mkMemory "local_1" "Database uses PostgreSQL" [] "unknown";
                   mkMemory "local_2" "Frontend uses React" [] "unknown"])
    (Some (DumpFails "[Errno 28] No space left on device")) [].

(** What [connect_ex] answers when the ports 5002 to 5004 are taken. *)
Definition busy_ports (p : Z) : outcome Z :=
  if ((5002 <=? p) && (p <=? 5004))%Z then Ok 0%Z else Ok 111%Z.

(** ** Facts about the string built-ins *)

Example count_overlap : PyStr.count "aaa" "aa" = 1.
Proof. reflexivity. Qed.

Example split_example :
  PyStr.split "  alpha beta   alpha " = ["alpha"; "beta"; "alpha"].
Proof. reflexivity. Qed.

Example lower_example : PyStr.lower "React For" = "react for".
Proof. reflexivity. Qed.

Example str_of_nat_example : PyStr.str_of_nat 12 = "12".
Proof. reflexivity. Qed.


Section StringFacts.

Lemma prefix_iff (sub s : string) :
  prefix sub s = true <-> exists post, s = (sub ++ post)%string.
Proof.
  revert s; induction sub as [|c sub IH]; intros s; simpl.
  - split; [intros _; now exists s | intros _; now destruct s].
  - destruct s as [|d s]; simpl.
    + split; [discriminate | intros [post H]; discriminate].
    + destruct (ascii_dec c d) as [->|ne].
      * rewrite IH. split; intros [post H]; exists post.
        -- now rewrite H.
        -- now injection H.
      * split; [discriminate|].
        intros [post H]. injection H as H1 H2. now elim ne.
Qed.

Lemma contains_unfold (sub s : string) :
  contains sub s =
  if prefix sub s then true
  else match s with
       | EmptyString => false
       | String _ t => contains sub t
       end.
Proof. destruct s; reflexivity. Qed.

(** [sub in s] holds exactly when [s] can be cut around a copy of [sub]. *)
Lemma contains_iff (sub s : string) :
  contains sub s = true <->
  exists pre post, s = (pre ++ sub ++ post)%string.
Proof.
  induction s as [|d s IH]; rewrite contains_unfold.
  - destruct (prefix sub "") eqn:E.
    + split; [intros _|reflexivity].
      apply prefix_iff in E as [post H]. now exists "", post.
    + split; [discriminate|].
      intros (pre & post & H). destruct pre; simpl in H.
      * assert (prefix sub "" = true) by (apply prefix_iff; now exists post).
        congruence.
      * discriminate.
  - destruct (prefix sub (String d s)) eqn:E.
    + split; [intros _|reflexivity].
      apply prefix_iff in E as [post H]. now exists "", post.
    + rewrite IH. split.
      * intros (pre & post & H). exists (String d pre), post.
        simpl. now rewrite H.
      * intros (pre & post & H). destruct pre as [|e pre]; simpl in H.
        -- assert (prefix sub (String d s) = true)
             by (apply prefix_iff; now exists post).
           congruence.
        -- injection H as _ H. now exists pre, post.
Qed.

Lemma isspace_lower_char (c : ascii) : isspace (lower_char c) = isspace c.
Proof. destruct c as [[] [] [] [] [] [] [] []]; reflexivity. Qed.

Lemma lower_app (s t : string) :
  lower (s ++ t) = (lower s ++ lower t)%string.
Proof. induction s as [|c s IH]; simpl; [reflexivity | now rewrite IH]. Qed.

Lemma lower_eq_empty (s : string) : lower s = "" <-> s = "".
Proof. destruct s; simpl; split; congruence. Qed.

Lemma flush_lower (cur : string) :
  flush (lower cur) = map lower (flush cur).
Proof. destruct cur; reflexivity. Qed.

Lemma split_from_lower (s cur : string) :
  split_from (lower cur) (lower s) = map lower (split_from cur s).
Proof.
  revert cur; induction s as [|c s IH]; intros cur; simpl.
  - apply flush_lower.
  - rewrite isspace_lower_char. destruct (isspace c).
    + rewrite map_app, <- flush_lower. f_equal. apply (IH "").
    + rewrite <- IH, lower_app. reflexivity.
Qed.

(** Lower-casing does not move word boundaries. *)
Lemma split_lower (s : string) : split (lower s) = map lower (split s).
Proof. apply (split_from_lower s ""). Qed.

Lemma words_lower (s : string) :
  List.length (split (lower s)) = List.length (split s).
Proof. now rewrite split_lower, length_map. Qed.

Lemma all_space_lower (s : string) : all_space (lower s) = all_space s.
Proof.
  induction s as [|c s IH]; simpl; [reflexivity|].
  now rewrite isspace_lower_char, IH.
Qed.

Lemma split_from_all_space (s cur : string) :
  all_space s = true -> split_from cur s = flush cur.
Proof.
  revert cur; induction s as [|c s IH]; intros cur H; simpl in *.
  - reflexivity.
  - apply andb_prop in H as [Hc Hs]. rewrite Hc, (IH "" Hs). simpl.
    apply app_nil_r.
Qed.

Lemma split_from_cur_nonempty (s cur : string) :
  cur <> "" -> split_from cur s <> [].
Proof.
  revert cur; induction s as [|c s IH]; intros cur H; simpl.
  - destruct cur; [congruence | discriminate].
  - destruct (isspace c).
    + destruct cur; [congruence | discriminate].
    + apply IH. destruct cur; discriminate.
Qed.

Lemma split_from_word (s cur : string) :
  all_space s = false -> split_from cur s <> [].
Proof.
  revert cur; induction s as [|c s IH]; intros cur H; simpl in *.
  - discriminate.
  - destruct (isspace c); simpl in H.
    + intros E. apply app_eq_nil in E as [_ E]. now apply (IH "" H).
    + apply split_from_cur_nonempty. destruct cur; discriminate.
Qed.

(** A string has no word exactly when it is made of whitespace only. *)
Lemma split_nil_iff (s : string) : split s = [] <-> all_space s = true.
Proof.
  split.
  - intros E. destruct (all_space s) eqn:H; [reflexivity|].
    now elim (split_from_word s "" H).
  - intros H. apply (split_from_all_space s "" H).
Qed.

End StringFacts.

(** ** Facts about the stable descending sort and slicing *)

Section SortFacts.

Context {A : Type} (key : A -> Q).

Lemma insert_desc_perm (x : A) (l : list A) :
  Permutation (insert_desc key x l) (x :: l).
Proof.
  induction l as [|y t IH]; simpl.
  - apply Permutation_refl.
  - destruct (Qle_bool (key y) (key x)).
    + apply Permutation_refl.
    + eapply perm_trans; [apply perm_skip, IH | apply perm_swap].
Qed.

Lemma sort_reverse_perm (l : list A) : Permutation (sort_reverse key l) l.
Proof.
  induction l as [|x t IH]; simpl.
  - apply perm_nil.
  - eapply perm_trans; [apply insert_desc_perm | now apply perm_skip].
Qed.

Lemma insert_desc_sorted (x : A) (l : list A) :
  StronglySorted (desc key) l -> StronglySorted (desc key) (insert_desc key x l).
Proof.
  induction 1 as [|y t Hs IH Hy]; simpl.
  - constructor; constructor.
  - destruct (Qle_bool (key y) (key x)) eqn:E.
    + apply Qle_bool_iff in E. constructor.
      * now constructor.
      * constructor; [exact E|].
        eapply Forall_impl; [|exact Hy]. unfold desc. intros z Hz.
        now apply Qle_trans with (key y).
    + constructor; [exact IH|].
      assert (Hxy : desc key y x).
      { unfold desc. apply Qlt_le_weak, Qnot_le_lt. intros H.
        apply Qle_bool_iff in H. congruence. }
      apply Forall_forall. intros z Hz.
      apply (Permutation_in _ (insert_desc_perm x t)) in Hz.
      destruct Hz as [<-|Hz]; [exact Hxy|].
      now apply (proj1 (Forall_forall _ _) Hy).
Qed.

Lemma sort_reverse_sorted (l : list A) :
  StronglySorted (desc key) (sort_reverse key l).
Proof.
  induction l as [|x t IH]; simpl.
  - constructor.
  - now apply insert_desc_sorted.
Qed.

(** Inserting never carries an element past one of equal key. *)
Lemma insert_desc_stable (k : Q) (x : A) (l : list A) :
  filter (same_key key k) (insert_desc key x l) = filter (same_key key k) (x :: l).
Proof.
  induction l as [|y t IH]; [reflexivity|].
  simpl insert_desc. destruct (Qle_bool (key y) (key x)) eqn:E; [reflexivity|].
  change (filter (same_key key k) (y :: insert_desc key x t))
    with (if same_key key k y then y :: filter (same_key key k) (insert_desc key x t)
          else filter (same_key key k) (insert_desc key x t)).
  rewrite IH. simpl. unfold same_key.
  destruct (Qeq_bool (key y) k) eqn:Ey, (Qeq_bool (key x) k) eqn:Ex;
    try reflexivity.
  apply Qeq_bool_iff in Ey, Ex.
  assert (Qle_bool (key y) (key x) = true); [|congruence].
  apply Qle_bool_iff. rewrite Ey, Ex. apply Qle_refl.
Qed.

Lemma sort_reverse_stable (k : Q) (l : list A) :
  filter (same_key key k) (sort_reverse key l) = filter (same_key key k) l.
Proof.
  induction l as [|x t IH]; [reflexivity|].
  simpl sort_reverse. rewrite insert_desc_stable. simpl. now rewrite IH.
Qed.

Lemma firstn_sorted (n : nat) (l : list A) :
  StronglySorted (desc key) l -> StronglySorted (desc key) (firstn n l).
Proof.
  intros H; revert n; induction H as [|y t Hs IH Hy]; intros [|n]; simpl;
    try constructor.
  - apply IH.
  - apply Forall_forall. intros z Hz.
    apply (proj1 (Forall_forall _ _) Hy).
    rewrite <- (firstn_skipn n t). apply in_or_app. now left.
Qed.

Lemma slice_to_firstn (l : list A) (stop : Z) :
  exists n, slice_to l stop = firstn n l.
Proof. unfold slice_to. destruct (0 <=? stop)%Z; eauto. Qed.

Lemma slice_to_pos (l : list A) (stop : Z) :
  (0 < stop)%Z -> slice_to l stop = firstn (Z.to_nat stop) l.
Proof.
  intros H. unfold slice_to.
  destruct (Z.leb_spec 0 stop); [reflexivity | lia].
Qed.

Lemma filter_firstn_prefix (p : A -> bool) (n : nat) (l : list A) :
  exists rest, filter p l = filter p (firstn n l) ++ rest.
Proof.
  exists (filter p (skipn n l)).
  now rewrite <- filter_app, firstn_skipn.
Qed.

End SortFacts.

(** ** The search loop in closed form *)

Section SearchFacts.

Lemma load_memories_eq (w : World) : _load_memories w = (Ok (loaded w), w).
Proof. unfold _load_memories, loaded. now destruct (memory_file w). Qed.

Lemma score_with_words (query content : string) :
  wordless content = false ->
  score (lower query) (lower content) = Ok (score_formula query content).
Proof.
  destruct content as [|c t]; [reflexivity|]. intros H.
  unfold score, score_formula.
  change (lower (String c t)) with (String (lower_char c) (lower t)) at 1.
  cbv iota. rewrite words_lower.
  destruct (List.length (split (String c t))) eqn:E; [|reflexivity].
  apply length_zero_iff_nil, split_nil_iff in E. unfold wordless in H.
  congruence.
Qed.

Lemma score_wordless (query content : string) :
  wordless content = true ->
  score (lower query) (lower content) = Raise ZeroDivisionError.
Proof.
  destruct content as [|c t]; [discriminate|]. intros H.
  unfold score.
  change (lower (String c t)) with (String (lower_char c) (lower t)) at 1.
  cbv iota. rewrite words_lower.
  replace (split (String c t)) with (@nil string); [reflexivity|].
  symmetry. now apply split_nil_iff.
Qed.

(** The loop raises as soon as a matching record has no word; otherwise
    it appends the entries of the matching records in file order. *)
Lemma for_each_search (query : string) (ms : list Memory) (acc : list Match) :
  for_each (search_step (lower query)) ms acc =
  if forallb (scorable query) ms
  then Ok (acc ++ map (entry query) (filter (matching query) ms))
  else Raise ZeroDivisionError.
Proof.
  revert acc; induction ms as [|m ms IH]; intros acc; simpl.
  - now rewrite app_nil_r.
  - unfold search_step at 1, scorable at 1.
    fold (matching query m). destruct (matching query m) eqn:Em; simpl.
    + destruct (wordless (mem_content m)) eqn:Ew; simpl.
      * now rewrite score_wordless.
      * rewrite score_with_words by assumption. rewrite IH.
        destruct (forallb (scorable query) ms); [|reflexivity].
        now rewrite <- app_assoc.
    + apply IH.
Qed.

Lemma search_local_eq (query : string) (limit : Z) (w : World) :
  search_local query limit w =
  (if forallb (scorable query) (loaded w)
   then Ok (slice_to (sort_reverse m_score
                        (map (entry query)
                           (filter (matching query) (loaded w)))) limit)
   else Raise ZeroDivisionError, w).
Proof.
  unfold search_local, bind, lift, ret. rewrite load_memories_eq.
  rewrite for_each_search. now destruct (forallb (scorable query) (loaded w)).
Qed.

End SearchFacts.

(** ** Properties of [search_local] *)

Lemma scorable_all (query : string) (ms : list Memory) :
  (forall m, In m ms -> matching query m = true ->
             wordless (mem_content m) = false) ->
  forallb (scorable query) ms = true.
Proof.
  intros H. apply forallb_forall. intros m Hm. unfold scorable.
  destruct (matching query m) eqn:E; [|reflexivity].
  now rewrite (H m Hm E).
Qed.

Lemma search_local_ok_inv (query : string) (limit : Z) (w : World)
    (res : list Match) :
  fst (search_local query limit w) = Ok res ->
  res = slice_to (sort_reverse m_score
                    (map (entry query) (filter (matching query) (loaded w))))
          limit.
Proof.
  rewrite search_local_eq. simpl.
  destruct (forallb (scorable query) (loaded w)); congruence.
Qed.

Lemma in_slice_to {A : Type} (x : A) (l : list A) (stop : Z) :
  In x (slice_to l stop) -> In x l.
Proof.
  destruct (slice_to_firstn l stop) as [n ->]. intros H.
  rewrite <- (firstn_skipn n l). apply in_or_app. now left.
Qed.

Lemma in_search_result (query : string) (limit : Z) (w : World)
    (res : list Match) (e : Match) :
  fst (search_local query limit w) = Ok res -> In e res ->
  exists m, In m (loaded w) /\ matching query m = true /\ e = entry query m.
Proof.
  intros H He. apply search_local_ok_inv in H. subst res.
  apply in_slice_to in He.
  apply (Permutation_in _ (sort_reverse_perm m_score _)) in He.
  apply in_map_iff in He as (m & <- & Hm).
  apply filter_In in Hm as [Hm1 Hm2]. now exists m.
Qed.

(** C1, as amended: in a store where no record matching the query has a
    non-empty content without words, [search_local] returns, and it gives
    every record whose lower-cased content contains the lower-cased query
    the score (occurrences of the lower-cased query in the lower-cased
    content) / (number of whitespace-separated words of the content), 0 for
    empty content.  Content "alpha beta alpha" with query "alpha" scores
    2/3; the content "We decided to use React for the frontend framework"
    has nine words, so query "frontend" scores 1/9. *)
Theorem search_local_score_formula :
  (forall (w : World) (query : string) (limit : Z),
      (forall m, In m (loaded w) -> matching query m = true ->
                 wordless (mem_content m) = false) ->
      exists matches,
        for_each (search_step (lower query)) (loaded w) [] = Ok matches /\
        fst (search_local query limit w)
        = Ok (slice_to (sort_reverse m_score matches) limit) /\
        matches = map (entry query) (filter (matching query) (loaded w)) /\
        forall m, In m (loaded w) -> matching query m = true ->
          In (mkMatch (mem_content m)
                (score_formula query (mem_content m)) (mem_id m)) matches)
  /\ fst (search_local "alpha" 5 alpha_store)
     = Ok [mkMatch "alpha beta alpha" (2 # 3)%Q "local_1"]
  /\ fst ((store pathlib_Path react [] ;;; search_local "frontend" 5)
            (fresh Absent))
     = Ok [mkMatch react (1 # 9)%Q "local_1"].
Proof.
  split; [|split; reflexivity].
  intros w query limit H.
  exists (map (entry query) (filter (matching query) (loaded w))).
  assert (Hs := scorable_all query (loaded w) H).
  repeat split.
  - rewrite for_each_search, Hs. reflexivity.
  - rewrite search_local_eq, Hs. reflexivity.
  - intros m Hm Hq. apply (in_map (entry query)).
    apply filter_In. now split.
Qed.

Lemma search_local_score_formula_witness :
  (forall m, In m (loaded alpha_store) -> matching "ALPHA" m = true ->
             wordless (mem_content m) = false) /\
  exists matches,
    for_each (search_step (lower "ALPHA")) (loaded alpha_store) []
    = Ok matches /\
    fst (search_local "ALPHA" 5 alpha_store)
    = Ok (slice_to (sort_reverse m_score matches) 5) /\
    matches = map (entry "ALPHA")
                (filter (matching "ALPHA") (loaded alpha_store)) /\
    forall m, In m (loaded alpha_store) -> matching "ALPHA" m = true ->
      In (mkMatch (mem_content m)
            (score_formula "ALPHA" (mem_content m)) (mem_id m)) matches.
Proof.
  assert (H : forall m, In m (loaded alpha_store) ->
                        matching "ALPHA" m = true ->
                        wordless (mem_content m) = false).
  { intros m [<-|[<-|[<-|[]]]] _; reflexivity. }
  split; [exact H|].
  exact (proj1 search_local_score_formula alpha_store "ALPHA" 5%Z H).
Defined.

(** Against C1 as first stated: the scenario of the specification
    returns score 1/9, not 1/8, since the content has nine words. *)
Lemma frontend_scenario_scores_one_ninth :
  fst ((store pathlib_Path react [] ;;; search_local "frontend" 5)
         (fresh Absent))
  = Ok [mkMatch react (1 # 9)%Q "local_1"]
  /\ List.length (split react) = 9
  /\ ~ (1 # 9 == 1 # 8)%Q.
Proof. repeat split. discriminate. Qed.

(** C2: whatever [search_local] returns, each returned entry is built from
    a stored record whose lower-cased content contains the lower-cased
    query as a substring; a record without that property contributes no
    entry at all. *)
Theorem search_local_excludes_non_matching
    (w : World) (query : string) (limit : Z) (res : list Match) :
  fst (search_local query limit w) = Ok res ->
  (forall e, In e res ->
     contains (lower query) (lower (m_content e)) = true /\
     (exists pre post,
         lower (m_content e) = (pre ++ lower query ++ post)%string) /\
     exists m, In m (loaded w) /\ m_content e = mem_content m /\
               m_id e = mem_id m) /\
  (forall m, contains (lower query) (lower (mem_content m)) = false ->
     forall e, In e res -> m_content e <> mem_content m).
Proof.
  intros H.
  assert (K : forall e, In e res ->
                contains (lower query) (lower (m_content e)) = true).
  { intros e He. destruct (in_search_result _ _ _ _ _ H He) as (m & _ & Hq & ->).
    exact Hq. }
  split.
  - intros e He. split; [now apply K|]. split.
    + apply contains_iff. now apply K.
    + destruct (in_search_result _ _ _ _ _ H He) as (m & Hm & _ & ->).
      now exists m.
  - intros m Hm e He E. apply K in He. rewrite E in He. congruence.
Qed.

Lemma search_local_excludes_non_matching_witness :
  fst (search_local "React" 5 mixed_store)
  = Ok [mkMatch "react react native" (2 # 3)%Q "local_3";
        mkMatch "Use React" (1 # 2)%Q "local_1";
        mkMatch "we like REACT a lot" (1 # 5)%Q "local_4"] /\
  (forall e,
     In e [mkMatch "react react native" (2 # 3)%Q "local_3";
           mkMatch "Use React" (1 # 2)%Q "local_1";
           mkMatch "we like REACT a lot" (1 # 5)%Q "local_4"] ->
     contains (lower "React") (lower (m_content e)) = true /\
     (exists pre post,
         lower (m_content e) = (pre ++ lower "React" ++ post)%string) /\
     exists m, In m (loaded mixed_store) /\ m_content e = mem_content m /\
               m_id e = mem_id m) /\
  (forall m, contains (lower "React") (lower (mem_content m)) = false ->
     forall e,
       In e [mkMatch "react react native" (2 # 3)%Q "local_3";
             mkMatch "Use React" (1 # 2)%Q "local_1";
             mkMatch "we like REACT a lot" (1 # 5)%Q "local_4"] ->
       m_content e <> mem_content m).
Proof.
  assert (H : fst (search_local "React" 5 mixed_store)
              = Ok [mkMatch "react react native" (2 # 3)%Q "local_3";
                    mkMatch "Use React" (1 # 2)%Q "local_1";
                    mkMatch "we like REACT a lot" (1 # 5)%Q "local_4"])
    by reflexivity.
  split; [exact H|].
  exact (search_local_excludes_non_matching mixed_store "React" 5%Z _ H).
Defined.

(** C3: for a positive [limit], the list [search_local] returns is in
    descending order of score and holds at most [limit] entries: it is the
    first [limit] entries of the sorted matches, the sorted matches being a
    rearrangement of the matches in descending order of score. *)
Theorem search_local_sorted_and_limited
    (w : World) (query : string) (limit : Z) (res : list Match) :
  (0 < limit)%Z ->
  fst (search_local query limit w) = Ok res ->
  StronglySorted (fun a b => (m_score b <= m_score a)%Q) res /\
  (Z.of_nat (List.length res) <= limit)%Z /\
  exists matches,
    for_each (search_step (lower query)) (loaded w) [] = Ok matches /\
    res = firstn (Z.to_nat limit) (sort_reverse m_score matches) /\
    Permutation (sort_reverse m_score matches) matches /\
    StronglySorted (fun a b => (m_score b <= m_score a)%Q)
      (sort_reverse m_score matches).
Proof.
  intros Hl H. rewrite search_local_eq in H. simpl in H.
  destruct (forallb (scorable query) (loaded w)) eqn:Hs; [|discriminate].
  injection H as <-. rewrite slice_to_pos by assumption.
  split; [|split].
  - apply (firstn_sorted m_score), sort_reverse_sorted.
  - pose proof (firstn_le_length (Z.to_nat limit)
                  (sort_reverse m_score
                     (map (entry query)
                        (filter (matching query) (loaded w))))). lia.
  - exists (map (entry query) (filter (matching query) (loaded w))).
    rewrite for_each_search, Hs. repeat split.
    + apply sort_reverse_perm.
    + apply sort_reverse_sorted.
Qed.

Lemma search_local_sorted_and_limited_witness :
  (0 < 2)%Z /\
  fst (search_local "React" 2 mixed_store)
  = Ok [mkMatch "react react native" (2 # 3)%Q "local_3";
        mkMatch "Use React" (1 # 2)%Q "local_1"] /\
  StronglySorted (fun a b => (m_score b <= m_score a)%Q)
    [mkMatch "react react native" (2 # 3)%Q "local_3";
     mkMatch "Use React" (1 # 2)%Q "local_1"] /\
  (Z.of_nat (List.length
               [mkMatch "react react native" (2 # 3)%Q "local_3";
                mkMatch "Use React" (1 # 2)%Q "local_1"]) <= 2)%Z /\
  exists matches,
    for_each (search_step (lower "React")) (loaded mixed_store) []
    = Ok matches /\
    [mkMatch "react react native" (2 # 3)%Q "local_3";
     mkMatch "Use React" (1 # 2)%Q "local_1"]
    = firstn (Z.to_nat 2) (sort_reverse m_score matches) /\
    Permutation (sort_reverse m_score matches) matches /\
    StronglySorted (fun a b => (m_score b <= m_score a)%Q)
      (sort_reverse m_score matches).
Proof.
  assert (Hl : (0 < 2)%Z) by lia.
  assert (H : fst (search_local "React" 2 mixed_store)
              = Ok [mkMatch "react react native" (2 # 3)%Q "local_3";
                    mkMatch "Use React" (1 # 2)%Q "local_1"])
    by reflexivity.
  split; [exact Hl|]. split; [exact H|].
  exact (search_local_sorted_and_limited mixed_store "React" 2%Z _ Hl H).
Defined.

Lemma filter_split_at {A : Type} (p : A -> bool) (a : A) (l x1 x2 : list A) :
  filter p l = x1 ++ a :: x2 ->
  exists y1 y2, l = y1 ++ a :: y2 /\ filter p y1 = x1 /\ filter p y2 = x2.
Proof.
  revert x1; induction l as [|b l IH]; intros x1 H; simpl in H.
  - destruct x1; discriminate.
  - destruct (p b) eqn:E.
    + destruct x1 as [|c x1]; simpl in H; injection H as -> H.
      * exists [], l. now repeat split.
      * destruct (IH _ H) as (y1 & y2 & -> & <- & <-).
        exists (c :: y1), y2. simpl. now rewrite E.
    + destruct (IH _ H) as (y1 & y2 & -> & <- & <-).
      exists (b :: y1), y2. simpl. now rewrite E.
Qed.

(** C9: the tie-break of [search_local] is the file order.  Among the
    entries of any one score, the result lists them exactly as the file
    lists the matching records of that score (up to the cut at [limit]);
    so when the result has [a] before [b] with equal scores, the matching
    records in file order also have [a] before [b]. *)
Theorem search_local_ties_in_file_order
    (w : World) (query : string) (limit : Z) (res : list Match) :
  fst (search_local query limit w) = Ok res ->
  let in_file_order :=
    map (entry query) (filter (matching query) (loaded w)) in
  (forall k, exists rest,
      filter (same_key m_score k) in_file_order
      = filter (same_key m_score k) res ++ rest) /\
  (forall a b r1 r2 r3,
      res = r1 ++ a :: r2 ++ b :: r3 -> (m_score a == m_score b)%Q ->
      exists f1 f2 f3, in_file_order = f1 ++ a :: f2 ++ b :: f3).
Proof.
  intros H in_file_order.
  apply search_local_ok_inv in H. fold in_file_order in H.
  assert (K : forall k, exists rest,
             filter (same_key m_score k) in_file_order
             = filter (same_key m_score k) res ++ rest).
  { intros k. subst res.
    destruct (slice_to_firstn (sort_reverse m_score in_file_order) limit)
      as [n ->].
    rewrite <- (sort_reverse_stable m_score k in_file_order).
    apply filter_firstn_prefix. }
  split; [exact K|].
  intros a b r1 r2 r3 E Hab.
  destruct (K (m_score a)) as [rest Hk].
  assert (Ha : same_key m_score (m_score a) a = true)
    by (apply Qeq_bool_iff, Qeq_refl).
  assert (Hb : same_key m_score (m_score a) b = true)
    by (apply Qeq_bool_iff; now symmetry).
  rewrite E in Hk.
  rewrite filter_app in Hk. simpl in Hk. rewrite Ha in Hk.
  rewrite filter_app in Hk. simpl in Hk. rewrite Hb in Hk.
  rewrite <- app_assoc in Hk. simpl in Hk.
  apply filter_split_at in Hk as (f1 & t & -> & _ & Ht).
  rewrite <- app_assoc in Ht. simpl in Ht.
  apply filter_split_at in Ht as (f2 & f3 & -> & _ & _).
  now exists f1, f2, f3.
Qed.

Lemma search_local_ties_in_file_order_witness :
  fst (search_local "apple" 4 tied_store)
  = Ok [mkMatch "apple" 1%Q "local_4";
        mkMatch "red apple" (1 # 2)%Q "local_1";
        mkMatch "apple pie apple tart" (2 # 4)%Q "local_2";
        mkMatch "green APPLE" (1 # 2)%Q "local_3"] /\
  let in_file_order :=
    map (entry "apple") (filter (matching "apple") (loaded tied_store)) in
  (forall k, exists rest,
      filter (same_key m_score k) in_file_order
      = filter (same_key m_score k)
          [mkMatch "apple" 1%Q "local_4";
           mkMatch "red apple" (1 # 2)%Q "local_1";
           mkMatch "apple pie apple tart" (2 # 4)%Q "local_2";
           mkMatch "green APPLE" (1 # 2)%Q "local_3"] ++ rest) /\
  (forall a b r1 r2 r3,
      [mkMatch "apple" 1%Q "local_4";
       mkMatch "red apple" (1 # 2)%Q "local_1";
       mkMatch "apple pie apple tart" (2 # 4)%Q "local_2";
       mkMatch "green APPLE" (1 # 2)%Q "local_3"]
      = r1 ++ a :: r2 ++ b :: r3 -> (m_score a == m_score b)%Q ->
      exists f1 f2 f3, in_file_order = f1 ++ a :: f2 ++ b :: f3).
Proof.
  assert (H : fst (search_local "apple" 4 tied_store)
              = Ok [mkMatch "apple" 1%Q "local_4";
                    mkMatch "red apple" (1 # 2)%Q "local_1";
                    mkMatch "apple pie apple tart" (2 # 4)%Q "local_2";
                    mkMatch "green APPLE" (1 # 2)%Q "local_3"])
    by reflexivity.
  split; [exact H|].
  exact (search_local_ties_in_file_order tied_store "apple" 4%Z _ H).
Defined.

(** C10: the score computation is partial.  When a stored record's content
    is non-empty, made of whitespace only, and contains the lower-cased
    query (the empty query, a single space, ...), its word count is zero
    and [search_local] raises [ZeroDivisionError]; the guard of the score
    expression answers 0 only for the empty content. *)
Theorem search_local_divides_by_zero :
  (forall (w : World) (query : string) (limit : Z) (m : Memory),
      In m (loaded w) ->
      mem_content m <> "" ->
      all_space (mem_content m) = true ->
      contains (lower query) (lower (mem_content m)) = true ->
      List.length (split (lower (mem_content m))) = 0 /\
      score (lower query) (lower (mem_content m)) = Raise ZeroDivisionError /\
      search_local query limit w = (Raise ZeroDivisionError, w))
  /\ (forall query_lower, score query_lower "" = Ok 0%Q).
Proof.
  split; [|reflexivity].
  intros w query limit m Hm Hne Hsp Hq.
  assert (Hw : wordless (mem_content m) = true).
  { unfold wordless. destruct (mem_content m); [congruence | exact Hsp]. }
  split; [|split].
  - rewrite words_lower. apply length_zero_iff_nil, split_nil_iff, Hsp.
  - now apply score_wordless.
  - rewrite search_local_eq.
    replace (forallb (scorable query) (loaded w)) with false; [reflexivity|].
    symmetry. apply not_true_is_false. intros Hall.
    rewrite forallb_forall in Hall. specialize (Hall m Hm).
    unfold scorable, matching in Hall. rewrite Hq, Hw in Hall. discriminate.
Qed.

Lemma search_local_divides_by_zero_witness :
  In (mkMemory "local_2" " " [] "unknown") (loaded blank_store) /\
  " " <> "" /\
  all_space " " = true /\
  contains (lower "") (lower " ") = true /\
  List.length (split (lower " ")) = 0 /\
  score (lower "") (lower " ") = Raise ZeroDivisionError /\
  search_local "" 5 blank_store = (Raise ZeroDivisionError, blank_store).
Proof.
  assert (Hm : In (mkMemory "local_2" " " [] "unknown") (loaded blank_store))
    by (simpl; auto).
  assert (Hne : " " <> "") by discriminate.
  assert (Hsp : all_space " " = true) by reflexivity.
  assert (Hq : contains (lower "") (lower " ") = true) by reflexivity.
  split; [exact Hm|]. split; [exact Hne|]. split; [exact Hsp|].
  split; [exact Hq|].
  exact (proj1 search_local_divides_by_zero blank_store "" 5%Z
           (mkMemory "local_2" " " [] "unknown") Hm Hne Hsp Hq).
Defined.

(** The same failure with a single space as the query. *)
Example search_space_raises :
  search_local " " 5 blank_store = (Raise ZeroDivisionError, blank_store).
Proof. reflexivity. Qed.

(** ** Properties of loading *)

(** C6: when the store file is absent, or present but not readable as
    JSON, loading yields the empty list: [_load_memories], [get_all_local]
    and [search_local] all return an empty sequence, raise nothing, print
    nothing and leave the world as it was. *)
Theorem load_fails_open (w : World) :
  memory_file w = Absent \/ memory_file w = Corrupt ->
  _load_memories w = (Ok [], w) /\
  get_all_local w = (Ok [], w) /\
  forall query limit, search_local query limit w = (Ok [], w).
Proof.
  intros H.
  assert (E : loaded w = []) by (unfold loaded; now destruct H as [-> | ->]).
  split; [|split].
  - now rewrite load_memories_eq, E.
  - unfold get_all_local. now rewrite load_memories_eq, E.
  - intros query limit. rewrite search_local_eq, E. simpl.
    destruct (slice_to_firstn (@nil Match) limit) as [n ->].
    now rewrite firstn_nil.
Qed.

Lemma load_fails_open_witness :
  (memory_file (fresh Corrupt) = Absent \/
   memory_file (fresh Corrupt) = Corrupt) /\
  _load_memories (fresh Corrupt) = (Ok [], fresh Corrupt) /\
  get_all_local (fresh Corrupt) = (Ok [], fresh Corrupt) /\
  forall query limit,
    search_local query limit (fresh Corrupt) = (Ok [], fresh Corrupt).
Proof.
  assert (H : memory_file (fresh Corrupt) = Absent \/
              memory_file (fresh Corrupt) = Corrupt) by (right; reflexivity).
  split; [exact H|].
  exact (load_fails_open (fresh Corrupt) H).
Defined.

Example get_all_without_file : get_all_local (fresh Absent) = (Ok [], fresh Absent).
Proof. reflexivity. Qed.

(** ** Properties of [store] *)

Lemma substring_all (s : string) : substring 0 (String.length s) s = s.
Proof. induction s as [|c s IH]; simpl; [reflexivity | now rewrite IH]. Qed.

Lemma nat_of_str_of_nat (n : nat) : nat_of_str (str_of_nat n) = Some n.
Proof.
  unfold nat_of_str, str_of_nat. rewrite NilEmpty.usu. simpl.
  now rewrite DecimalNat.Unsigned.of_to.
Qed.

Lemma id_suffix_local_id (n : nat) : id_suffix (local_id n) = Some n.
Proof.
  unfold id_suffix.
  replace (prefix "local_" (local_id n)) with true
    by (symmetry; apply prefix_iff; now exists (str_of_nat n)).
  unfold local_id. cbn [append String.length Nat.sub substring].
  rewrite Nat.sub_0_r, substring_all. apply nat_of_str_of_nat.
Qed.

Lemma seq_increasing (a n : nat) : StronglySorted lt (seq a n).
Proof.
  revert a; induction n as [|n IH]; intros a; simpl; constructor.
  - apply IH.
  - apply Forall_forall. intros x Hx. apply in_seq in Hx. lia.
Qed.

Lemma save_memories_ok (ms : list Memory) (w : World) :
  write_fault w = None ->
  _save_memories ms w = (Ok tt, mkWorld (Stored ms) None (stdout w)).
Proof. intros H. unfold _save_memories. now rewrite H. Qed.

Lemma save_memories_fault (ms : list Memory) (w : World) (fault : WriteFault) :
  write_fault w = Some fault ->
  _save_memories ms w =
  (Ok tt,
   mkWorld (match fault with
            | OpenFails _ => memory_file w
            | DumpFails _ => Corrupt
            end)
     (Some fault)
     (stdout w ++ [("Failed to save memories: " ++ fault_msg fault)%string])).
Proof. intros H. unfold _save_memories. rewrite H. now destruct fault. Qed.

(** [store] when the class [Path] has no attribute [ctime]. *)
Lemma store_eq (P : PathClass) (content : string) (metadata : Metadata)
    (w : World) :
  attr_ctime P = None ->
  store P content metadata w =
  (Ok (local_id (List.length (loaded w) + 1)),
   snd (_save_memories (loaded w ++ [new_record w content metadata]) w)).
Proof.
  intros H. unfold store, bind, lift, ret, timestamp.
  rewrite load_memories_eq, H. fold (local_id (List.length (loaded w) + 1)).
  fold (new_record w content metadata).
  unfold _save_memories.
  destruct (write_fault w) as [[e|e]|]; reflexivity.
Qed.

Lemma store_ok (content : string) (metadata : Metadata) (w : World) :
  write_fault w = None ->
  store pathlib_Path content metadata w =
  (Ok (local_id (List.length (loaded w) + 1)),
   mkWorld (Stored (loaded w ++ [new_record w content metadata])) None
     (stdout w)).
Proof.
  intros H. rewrite store_eq by reflexivity.
  now rewrite save_memories_ok.
Qed.

Lemma store_all_ok (inputs : list (string * Metadata)) (w : World) :
  write_fault w = None ->
  exists w',
    store_all pathlib_Path inputs w =
    (Ok (map local_id (seq (List.length (loaded w) + 1) (List.length inputs))),
     w') /\
    write_fault w' = None /\
    map mem_id (loaded w') =
    map mem_id (loaded w)
    ++ map local_id (seq (List.length (loaded w) + 1) (List.length inputs)) /\
    map mem_content (loaded w') =
    map mem_content (loaded w) ++ map fst inputs.
Proof.
  revert w; induction inputs as [|[content metadata] rest IH]; intros w H.
  - exists w. simpl. now rewrite !app_nil_r.
  - simpl store_all. unfold bind at 1. rewrite store_ok by assumption.
    set (w1 := mkWorld (Stored (loaded w ++ [new_record w content metadata]))
                 None (stdout w)).
    destruct (IH w1 eq_refl) as (w' & E & Hf & Hi & Hc).
    assert (L : List.length (loaded w1) = List.length (loaded w) + 1)
      by (unfold w1, loaded; simpl; now rewrite length_app).
    rewrite L in E, Hi.
    exists w'. unfold bind. rewrite E. unfold ret. simpl List.length.
    replace (List.length (loaded w) + 1 + 1)
      with (S (List.length (loaded w) + 1)) in * by lia.
    assert (Lw : loaded w1 = loaded w ++ [new_record w content metadata])
      by reflexivity.
    split; [reflexivity|]. split; [exact Hf|]. split.
    + rewrite Hi, Lw, map_app, <- app_assoc. reflexivity.
    + rewrite Hc, Lw, map_app, <- app_assoc. reflexivity.
Qed.

(** Against C4 as first stated: on a disk that refuses every write,
    three serial calls of [store] from an empty store all return local_1
    and the file never receives a record. *)
Lemma serial_stores_repeat_id_when_write_fails :
  loaded read_only_disk = [] /\
  fst (store_all pathlib_Path [("first", []); ("second", []); ("third", [])]
         read_only_disk)
  = Ok ["local_1"; "local_1"; "local_1"] /\
  memory_file
    (snd (store_all pathlib_Path
            [("first", []); ("second", []); ("third", [])] read_only_disk))
  = Absent.
Proof. repeat split. Qed.

(** C4, as amended: [store] returns the id "local_" followed by the
    number of records it loaded plus one; when its write goes through,
    the persisted list is the loaded one with the new record at its end.
    Serial calls starting from an empty store, each write going through,
    therefore return local_1, local_2, local_3, ...: the numeric suffixes
    are 1, 2, ..., strictly increasing, and the file holds the records in
    that order. *)
Theorem store_ids_count_up_when_saved :
  (forall (w : World) (content : string) (metadata : Metadata),
      exists w',
        store pathlib_Path content metadata w
        = (Ok ("local_" ++ str_of_nat (List.length (loaded w) + 1))%string, w')
        /\ (write_fault w = None ->
            memory_file w'
            = Stored (loaded w ++
                      [mkMemory
                         ("local_" ++ str_of_nat (List.length (loaded w) + 1))
                         content metadata "unknown"]) /\
            write_fault w' = None))
  /\
  (forall (inputs : list (string * Metadata)) (w : World),
      write_fault w = None ->
      loaded w = [] ->
      exists ids w',
        store_all pathlib_Path inputs w = (Ok ids, w') /\
        ids = map (fun n => ("local_" ++ str_of_nat n)%string)
                (seq 1 (List.length inputs)) /\
        map id_suffix ids = map Some (seq 1 (List.length inputs)) /\
        StronglySorted lt (seq 1 (List.length inputs)) /\
        map mem_id (loaded w') = ids /\
        map mem_content (loaded w') = map fst inputs).
Proof.
  split.
  - intros w content metadata. rewrite store_eq by reflexivity.
    eexists. split; [reflexivity|].
    intros H. now rewrite save_memories_ok.
  - intros inputs w Hf E.
    destruct (store_all_ok inputs w Hf) as (w' & Hs & _ & Hi & Hc).
    rewrite E in Hs, Hi, Hc. simpl in Hs, Hi, Hc.
    exists (map local_id (seq 1 (List.length inputs))), w'.
    repeat split; try assumption.
    + rewrite map_map. apply map_ext. intros n. apply id_suffix_local_id.
    + apply seq_increasing.
Qed.

Lemma store_ids_count_up_when_saved_witness :
  write_fault unreadable_store = None /\
  loaded unreadable_store = [] /\
  exists ids w',
    store_all pathlib_Path [("first", []); ("second", []); ("third", [])]
      unreadable_store = (Ok ids, w') /\
    ids = map (fun n => ("local_" ++ str_of_nat n)%string) (seq 1 3) /\
    map id_suffix ids = map Some (seq 1 3) /\
    StronglySorted lt (seq 1 3) /\
    map mem_id (loaded w') = ids /\
    map mem_content (loaded w') = ["first"; "second"; "third"].
Proof.
  assert (Hf : write_fault unreadable_store = None) by reflexivity.
  assert (E : loaded unreadable_store = []) by reflexivity.
  split; [exact Hf|]. split; [exact E|].
  exact (proj2 store_ids_count_up_when_saved
           [("first", []); ("second", []); ("third", [])] unreadable_store
           Hf E).
Defined.

Example three_stores :
  fst (store_all pathlib_Path [("first", []); ("second", []); ("third", [])]
         (fresh Absent))
  = Ok ["local_1"; "local_2"; "local_3"].
Proof. reflexivity. Qed.

Lemma slice_to_all {A : Type} (l : list A) (stop : Z) :
  (Z.of_nat (List.length l) <= stop)%Z -> slice_to l stop = l.
Proof.
  intros H. unfold slice_to.
  destruct (Z.leb_spec 0 stop); [|lia].
  apply firstn_all2. lia.
Qed.

(** Against C5 as first stated: a record stored as the sixth match of a
    query is in the file, and last in [get_all_local], yet [search_local]
    with its default limit of 5 does not return it. *)
Lemma stored_record_cut_off_by_limit :
  fst (store pathlib_Path "an apple a day keeps the doctor away" [] tied_store)
  = Ok "local_6" /\
  matching "apple"
    (mkMemory "local_6" "an apple a day keeps the doctor away" [] "unknown")
  = true /\
  fst ((store pathlib_Path "an apple a day keeps the doctor away" [] ;;;
        get_all_local) tied_store)
  = Ok (loaded tied_store ++
        [mkMemory "local_6" "an apple a day keeps the doctor away" []
           "unknown"]) /\
  fst ((store pathlib_Path "an apple a day keeps the doctor away" [] ;;;
        search_local "apple" 5) tied_store)
  = Ok [mkMatch "apple" 1%Q "local_4";
        mkMatch "red apple" (1 # 2)%Q "local_1";
        mkMatch "apple pie apple tart" (2 # 4)%Q "local_2";
        mkMatch "green APPLE" (1 # 2)%Q "local_3";
        mkMatch "Apple juice" (1 # 2)%Q "local_5"] /\
  ~ In "local_6"
      (map m_id
         [mkMatch "apple" 1%Q "local_4";
          mkMatch "red apple" (1 # 2)%Q "local_1";
          mkMatch "apple pie apple tart" (2 # 4)%Q "local_2";
          mkMatch "green APPLE" (1 # 2)%Q "local_3";
          mkMatch "Apple juice" (1 # 2)%Q "local_5"]).
Proof.
  repeat split. simpl. intros [H|[H|[H|[H|[H|[]]]]]]; discriminate.
Qed.

(** C5, as amended: after a [store] whose write went through,
    [get_all_local] returns the list it returned before followed by the
    new record, which carries the id returned and the given content and
    metadata: one element more, the new record last.  A later
    [search_local] returns the new record's entry when the record's
    lower-cased content contains the lower-cased query, no record
    matching the query has a non-empty content without words, and at most
    [limit] records match. *)
Theorem store_appends_record_read_by_search
    (w : World) (content : string) (metadata : Metadata)
    (query : string) (limit : Z) :
  write_fault w = None ->
  exists w' before,
    store pathlib_Path content metadata w
    = (Ok ("local_" ++ str_of_nat (List.length before + 1))%string, w') /\
    get_all_local w = (Ok before, w) /\
    get_all_local w'
    = (Ok (before ++
           [mkMemory ("local_" ++ str_of_nat (List.length before + 1))
              content metadata "unknown"]), w') /\
    List.length
      (before ++
       [mkMemory ("local_" ++ str_of_nat (List.length before + 1))
          content metadata "unknown"])
    = List.length before + 1 /\
    (forall d,
        last (before ++
              [mkMemory ("local_" ++ str_of_nat (List.length before + 1))
                 content metadata "unknown"]) d
        = mkMemory ("local_" ++ str_of_nat (List.length before + 1))
            content metadata "unknown") /\
    (contains (lower query) (lower content) = true ->
     (forall m,
         In m (before ++
               [mkMemory ("local_" ++ str_of_nat (List.length before + 1))
                  content metadata "unknown"]) ->
         matching query m = true -> wordless (mem_content m) = false) ->
     (Z.of_nat
        (List.length
           (filter (matching query)
              (before ++
               [mkMemory ("local_" ++ str_of_nat (List.length before + 1))
                  content metadata "unknown"]))) <= limit)%Z ->
     exists res,
       search_local query limit w' = (Ok res, w') /\
       In (mkMatch content (score_formula query content)
             ("local_" ++ str_of_nat (List.length before + 1))) res).
Proof.
  intros H.
  exists (mkWorld (Stored (loaded w ++ [new_record w content metadata])) None
            (stdout w)), (loaded w).
  split; [now apply store_ok|].
  unfold get_all_local. rewrite !load_memories_eq.
  fold (local_id (List.length (loaded w) + 1)).
  fold (new_record w content metadata).
  split; [reflexivity|]. split; [reflexivity|].
  split; [rewrite length_app; reflexivity|].
  split; [intros d; apply last_last|].
  intros Hq Hs Hl.
  eexists. rewrite search_local_eq.
  assert (Lw : loaded (mkWorld
                         (Stored (loaded w ++ [new_record w content metadata]))
                         None (stdout w))
               = loaded w ++ [new_record w content metadata])
    by reflexivity.
  rewrite Lw, (scorable_all _ _ Hs). split; [reflexivity|].
  rewrite slice_to_all.
  - apply (Permutation_in _ (Permutation_sym (sort_reverse_perm m_score _))).
    apply (in_map (entry query) _ (new_record w content metadata)).
    apply filter_In. split; [|exact Hq].
    apply in_or_app. right. now left.
  - rewrite (Permutation_length (sort_reverse_perm m_score _)), length_map.
    exact Hl.
Qed.

Lemma store_appends_record_read_by_search_witness :
  write_fault noted_store = None /\
  contains (lower "react") (lower "Frontend uses React") = true /\
  exists w' before,
    store pathlib_Path "Frontend uses React" [("tags", JArr [JStr "ui"])]
      noted_store
    = (Ok ("local_" ++ str_of_nat (List.length before + 1))%string, w') /\
    get_all_local noted_store = (Ok before, noted_store) /\
    get_all_local w'
    = (Ok (before ++
           [mkMemory ("local_" ++ str_of_nat (List.length before + 1))
              "Frontend uses React" [("tags", JArr [JStr "ui"])] "unknown"]),
       w') /\
    exists res,
      search_local "react" 5 w' = (Ok res, w') /\
      In (mkMatch "Frontend uses React"
            (score_formula "react" "Frontend uses React")
            ("local_" ++ str_of_nat (List.length before + 1))) res.
Proof.
  assert (Hf : write_fault noted_store = None) by reflexivity.
  assert (Hq : contains (lower "react") (lower "Frontend uses React") = true)
    by reflexivity.
  split; [exact Hf|]. split; [exact Hq|].
  destruct (store_appends_record_read_by_search noted_store
              "Frontend uses React" [("tags", JArr [JStr "ui"])] "react" 5%Z
              Hf)
    as (w' & before & Hs & Hb & Ha & _ & _ & Hvis).
  exists w', before. split; [exact Hs|]. split; [exact Hb|].
  split; [exact Ha|].
  assert (Eb : before = loaded noted_store).
  { unfold get_all_local in Hb. rewrite load_memories_eq in Hb.
    now injection Hb. }
  apply Hvis.
  - exact Hq.
  - rewrite Eb. intros m [<-|[<-|[]]] _; reflexivity.
  - rewrite Eb. simpl. lia.
Defined.

Example store_then_search_found :
  (store pathlib_Path "Frontend uses React" [("tags", JArr [JStr "ui"])] ;;;
   search_local "react" 5) noted_store
  = (Ok [mkMatch "Frontend uses React" (1 # 3)%Q "local_2"],
     fresh (Stored [mkMemory "local_1" "Database uses PostgreSQL" []
                      "unknown";
                    mkMemory "local_2" "Frontend uses React"
                      [("tags", JArr [JStr "ui"])] "unknown"])).
Proof. reflexivity. Qed.

Example store_then_search :
  fst ((store pathlib_Path "Frontend uses React" [] ;;;
        search_local "react" 5) noted_store)
  = Ok [mkMatch "Frontend uses React" (1 # 3)%Q "local_2"].
Proof. reflexivity. Qed.

(** ** Failures inside [store] *)

(** Against C7 as first stated: with a disk that refuses the write,
    [store] still returns the new id as on success; nothing is raised. *)
Lemma store_returns_id_when_write_fails :
  write_fault read_only_disk <> None /\
  store pathlib_Path "note" [] read_only_disk
  = (Ok "local_1",
     mkWorld Absent (Some (OpenFails "[Errno 13] Permission denied"))
       ["Failed to save memories: [Errno 13] Permission denied"]) /\
  ~ exists e, fst (store pathlib_Path "note" [] read_only_disk) = Raise e.
Proof.
  split; [discriminate|]. split; [reflexivity|].
  intros [e H]. discriminate.
Qed.

(** C7, as amended: when writing the record file fails, [_save_memories]
    catches the error and prints one line "Failed to save memories: ..."
    (a single attempt, no retry); [store] raises nothing and returns the
    new record's id as it does on success.  The file keeps its earlier
    state when it could not be opened, and is left unreadable when the
    dump broke off. *)
Theorem store_swallows_write_failure
    (w : World) (content : string) (metadata : Metadata) (fault : WriteFault) :
  write_fault w = Some fault ->
  exists w',
    store pathlib_Path content metadata w
    = (Ok ("local_" ++ str_of_nat (List.length (loaded w) + 1))%string, w') /\
    stdout w'
    = stdout w ++ [("Failed to save memories: " ++ fault_msg fault)%string] /\
    memory_file w' = match fault with
                     | OpenFails _ => memory_file w
                     | DumpFails _ => Corrupt
                     end /\
    write_fault w' = Some fault.
Proof.
  intros H. rewrite store_eq by reflexivity.
  rewrite (save_memories_fault _ _ _ H).
  eexists. split; [reflexivity|]. simpl. auto.
Qed.

Lemma store_swallows_write_failure_witness :
  write_fault read_only_disk
  = Some (OpenFails "[Errno 13] Permission denied") /\
  exists w',
    store pathlib_Path "note" [] read_only_disk
    = (Ok ("local_" ++ str_of_nat (List.length (loaded read_only_disk) + 1))%string,
       w') /\
    stdout w'
    = stdout read_only_disk
      ++ [("Failed to save memories: "
           ++ fault_msg (OpenFails "[Errno 13] Permission denied"))%string] /\
    memory_file w' = memory_file read_only_disk /\
    write_fault w' = Some (OpenFails "[Errno 13] Permission denied").
Proof.
  assert (H : write_fault read_only_disk
              = Some (OpenFails "[Errno 13] Permission denied"))
    by reflexivity.
  split; [exact H|].
  exact (store_swallows_write_failure read_only_disk "note" [] _ H).
Defined.

(** Against C8 as first stated: on [pathlib.Path] the call of [store]
    completes, with the timestamp "unknown"; [Path.ctime(Path.now())] is
    not evaluated. *)
Lemma store_completes_with_unknown_timestamp :
  timestamp pathlib_Path = Ok "unknown" /\
  store pathlib_Path "note" [] (fresh Absent)
  = (Ok "local_1",
     fresh (Stored [mkMemory "local_1" "note" [] "unknown"])) /\
  ~ exists e, fst (store pathlib_Path "note" [] (fresh Absent)) = Raise e.
Proof.
  split; [reflexivity|]. split; [reflexivity|].
  intros [e H]. discriminate.
Qed.

(** C8, as amended: the timestamp expression of [store] is guarded by
    [hasattr(Path, 'ctime')].  For a [Path] class without a [ctime]
    attribute, as [pathlib.Path] is, [Path.ctime(Path.now())] is not
    evaluated: the timestamp is the string "unknown" and [store] raises
    nothing, returning the new id. *)
Theorem timestamp_guard_skips_missing_api (P : PathClass) :
  attr_ctime P = None ->
  timestamp P = Ok "unknown" /\
  forall (w : World) (content : string) (metadata : Metadata),
    exists w',
      store P content metadata w
      = (Ok ("local_" ++ str_of_nat (List.length (loaded w) + 1))%string, w') /\
      (write_fault w = None ->
       memory_file w'
       = Stored (loaded w ++
                 [mkMemory
                    ("local_" ++ str_of_nat (List.length (loaded w) + 1))
                    content metadata "unknown"])).
Proof.
  intros H. split.
  - unfold timestamp. now rewrite H.
  - intros w content metadata. rewrite store_eq by assumption.
    eexists. split; [reflexivity|].
    intros Hw. now rewrite save_memories_ok.
Qed.

Lemma timestamp_guard_skips_missing_api_witness :
  attr_ctime pathlib_Path = None /\
  timestamp pathlib_Path = Ok "unknown" /\
  forall (w : World) (content : string) (metadata : Metadata),
    exists w',
      store pathlib_Path content metadata w
      = (Ok ("local_" ++ str_of_nat (List.length (loaded w) + 1))%string, w') /\
      (write_fault w = None ->
       memory_file w'
       = Stored (loaded w ++
                 [mkMemory
                    ("local_" ++ str_of_nat (List.length (loaded w) + 1))
                    content metadata "unknown"])).
Proof.
  assert (H : attr_ctime pathlib_Path = None) by reflexivity.
  split; [exact H|].
  exact (timestamp_guard_skips_missing_api pathlib_Path H).
Defined.

(** Only a [Path] class that had [ctime] while lacking [now] would make
    the expression raise, and [store] with it, before anything is
    written. *)
Lemma timestamp_raises_with_ctime_without_now
    (P : PathClass) (ctime : string -> outcome string) (w : World)
    (content : string) (metadata : Metadata) :
  attr_ctime P = Some ctime -> attr_now P = None ->
  store P content metadata w = (Raise (AttributeError "now"), w).
Proof.
  intros Hc Hn. unfold store, bind, lift, timestamp.
  now rewrite load_memories_eq, Hc, Hn.
Qed.

(** ** Further properties of [search_local] *)

Lemma slice_to_length {A : Type} (l : list A) (stop : Z) :
  List.length (slice_to l stop) =
  if (0 <=? stop)%Z then Nat.min (Z.to_nat stop) (List.length l)
  else List.length l - Z.to_nat (- stop).
Proof.
  unfold slice_to. destruct (0 <=? stop)%Z; rewrite length_firstn; lia.
Qed.

Lemma sorted_matches_length (query : string) (ms : list Memory) :
  List.length (sort_reverse m_score
                 (map (entry query) (filter (matching query) ms)))
  = List.length (filter (matching query) ms).
Proof.
  now rewrite (Permutation_length (sort_reverse_perm m_score _)), length_map.
Qed.

(** X1: the number of entries [search_local] returns is the number of
    matching records cut at [limit]; a negative [limit] is not refused
    but drops that many entries from the low-score end. *)
Theorem search_local_result_length
    (w : World) (query : string) (limit : Z) (res : list Match) :
  fst (search_local query limit w) = Ok res ->
  List.length res =
  if (0 <=? limit)%Z
  then Nat.min (Z.to_nat limit)
         (List.length (filter (matching query) (loaded w)))
  else List.length (filter (matching query) (loaded w)) - Z.to_nat (- limit).
Proof.
  intros H. apply search_local_ok_inv in H. subst res.
  now rewrite slice_to_length, sorted_matches_length.
Qed.

Lemma search_local_result_length_witness :
  fst (search_local "apple" (-2) tied_store)
  = Ok [mkMatch "apple" 1%Q "local_4";
        mkMatch "red apple" (1 # 2)%Q "local_1";
        mkMatch "apple pie apple tart" (2 # 4)%Q "local_2"] /\
  List.length [mkMatch "apple" 1%Q "local_4";
               mkMatch "red apple" (1 # 2)%Q "local_1";
               mkMatch "apple pie apple tart" (2 # 4)%Q "local_2"] =
  if (0 <=? -2)%Z
  then Nat.min (Z.to_nat (-2))
         (List.length (filter (matching "apple") (loaded tied_store)))
  else List.length (filter (matching "apple") (loaded tied_store))
       - Z.to_nat (- -2).
Proof.
  assert (H : fst (search_local "apple" (-2) tied_store)
              = Ok [mkMatch "apple" 1%Q "local_4";
                    mkMatch "red apple" (1 # 2)%Q "local_1";
                    mkMatch "apple pie apple tart" (2 # 4)%Q "local_2"])
    by reflexivity.
  split; [exact H|].
  exact (search_local_result_length tied_store "apple" (-2)%Z _ H).
Defined.

Lemma sorted_app_between {A : Type} (R : A -> A -> Prop) (l1 l2 : list A) :
  StronglySorted R (l1 ++ l2) ->
  forall a b, In a l1 -> In b l2 -> R a b.
Proof.
  induction l1 as [|x l1 IH]; simpl; intros H a b Ha Hb; [contradiction|].
  apply StronglySorted_inv in H as [Hs Hx].
  destruct Ha as [<-|Ha].
  - apply (proj1 (Forall_forall _ _) Hx). apply in_or_app. now right.
  - now apply IH.
Qed.

(** X2: what the cut at [limit] leaves out never outscores what it keeps:
    the matches are the returned entries plus a remainder, and every entry
    of the remainder has a score at most that of every returned entry. *)
Theorem search_local_keeps_best
    (w : World) (query : string) (limit : Z) (res : list Match) :
  fst (search_local query limit w) = Ok res ->
  exists rest,
    Permutation (res ++ rest)
      (map (entry query) (filter (matching query) (loaded w))) /\
    forall a b, In a res -> In b rest -> (m_score b <= m_score a)%Q.
Proof.
  intros H. apply search_local_ok_inv in H.
  set (sorted := sort_reverse m_score
                   (map (entry query) (filter (matching query) (loaded w))))
    in H.
  destruct (slice_to_firstn sorted limit) as [n Hn]. rewrite Hn in H.
  exists (skipn n sorted). subst res. split.
  - rewrite firstn_skipn. apply sort_reverse_perm.
  - apply (sorted_app_between (desc m_score)).
    rewrite firstn_skipn. apply sort_reverse_sorted.
Qed.

Lemma search_local_keeps_best_witness :
  fst (search_local "React" 1 mixed_store)
  = Ok [mkMatch "react react native" (2 # 3)%Q "local_3"] /\
  exists rest,
    Permutation ([mkMatch "react react native" (2 # 3)%Q "local_3"] ++ rest)
      (map (entry "React") (filter (matching "React") (loaded mixed_store))) /\
    forall a b,
      In a [mkMatch "react react native" (2 # 3)%Q "local_3"] ->
      In b rest -> (m_score b <= m_score a)%Q.
Proof.
  assert (H : fst (search_local "React" 1 mixed_store)
              = Ok [mkMatch "react react native" (2 # 3)%Q "local_3"])
    by reflexivity.
  split; [exact H|].
  exact (search_local_keeps_best mixed_store "React" 1%Z _ H).
Defined.

Lemma prefix_of_empty (sub : string) : prefix sub "" = true -> sub = "".
Proof. destruct sub; [reflexivity | discriminate]. Qed.

Lemma contains_in_empty (sub : string) : contains sub "" = true -> sub = "".
Proof.
  rewrite contains_unfold. destruct (prefix sub "") eqn:E; [|discriminate].
  intros _. now apply prefix_of_empty.
Qed.

Lemma contains_empty (s : string) : contains "" s = true.
Proof. rewrite contains_unfold. now destruct s. Qed.

(** A substring that occurs is counted at least once. *)
Lemma count_scan_positive (sub s : string) :
  contains sub s = true -> sub <> "" -> 1 <= count_scan sub 0 s.
Proof.
  induction s as [|c t IH]; intros H Hne.
  - now apply contains_in_empty in H.
  - rewrite contains_unfold in H.
    change (count_scan sub 0 (String c t))
      with (if prefix sub (String c t)
            then S (count_scan sub (String.length sub - 1) t)
            else count_scan sub 0 t).
    destruct (prefix sub (String c t)); [lia | now apply IH].
Qed.

Lemma count_positive (sub s : string) :
  contains sub s = true -> 1 <= count s sub.
Proof.
  intros H. unfold count. destruct sub as [|c sub]; [lia|].
  now apply count_scan_positive.
Qed.

(** X3: a returned entry has score 0 only when its content is empty, which
    only the empty query matches; every entry with a non-empty content has
    a positive score. *)
Theorem search_local_scores_positive
    (w : World) (query : string) (limit : Z) (res : list Match) :
  fst (search_local query limit w) = Ok res ->
  forall e, In e res ->
    (m_content e = "" -> m_score e = 0%Q /\ lower query = "") /\
    (m_content e <> "" -> (0 < m_score e)%Q).
Proof.
  intros H e He.
  destruct (in_search_result _ _ _ _ _ H He) as (m & _ & Hq & ->).
  unfold matching in Hq. simpl. split.
  - intros E. rewrite E in *. split; [reflexivity|].
    now apply contains_in_empty in Hq.
  - intros Hne. unfold score_formula.
    destruct (mem_content m) as [|c t] eqn:E; [congruence|].
    apply count_positive in Hq.
    unfold Qlt. cbn [Qnum Qden]. lia.
Qed.

Lemma search_local_scores_positive_witness :
  fst (search_local "" 5 alpha_store)
  = Ok [mkMatch "Gamma delta" (12 # 2)%Q "local_2";
        mkMatch "alpha beta alpha" (17 # 3)%Q "local_1";
        mkMatch "" 0%Q "local_3"] /\
  forall e,
    In e [mkMatch "Gamma delta" (12 # 2)%Q "local_2";
          mkMatch "alpha beta alpha" (17 # 3)%Q "local_1";
          mkMatch "" 0%Q "local_3"] ->
    (m_content e = "" -> m_score e = 0%Q /\ lower "" = "") /\
    (m_content e <> "" -> (0 < m_score e)%Q).
Proof.
  assert (H : fst (search_local "" 5 alpha_store)
              = Ok [mkMatch "Gamma delta" (12 # 2)%Q "local_2";
                    mkMatch "alpha beta alpha" (17 # 3)%Q "local_1";
                    mkMatch "" 0%Q "local_3"])
    by reflexivity.
  split; [exact H|].
  exact (search_local_scores_positive alpha_store "" 5%Z _ H).
Defined.

Lemma filter_all {A : Type} (f : A -> bool) (l : list A) :
  (forall x, In x l -> f x = true) -> filter f l = l.
Proof.
  induction l as [|x l IH]; intros H; simpl; [reflexivity|].
  rewrite (H x) by now left. f_equal. apply IH. intros y Hy. apply H. now right.
Qed.

(** X4: the empty query matches every record.  In a store without a
    whitespace-only content and with a limit that covers the store,
    [search_local] returns one entry per stored record. *)
Theorem search_local_empty_query_returns_all (w : World) (limit : Z) :
  (forall m, In m (loaded w) -> wordless (mem_content m) = false) ->
  (Z.of_nat (List.length (loaded w)) <= limit)%Z ->
  exists res,
    search_local "" limit w = (Ok res, w) /\
    Permutation res (map (entry "") (loaded w)) /\
    List.length res = List.length (loaded w).
Proof.
  intros Hs Hl.
  assert (Hf : filter (matching "") (loaded w) = loaded w).
  { apply filter_all. intros m _. apply contains_empty. }
  exists (sort_reverse m_score (map (entry "") (loaded w))).
  rewrite search_local_eq, Hf.
  rewrite scorable_all by (intros m Hm _; now apply Hs).
  assert (Hp := sort_reverse_perm m_score (map (entry "") (loaded w))).
  assert (Hn : List.length (sort_reverse m_score (map (entry "") (loaded w)))
               = List.length (loaded w))
    by now rewrite (Permutation_length Hp), length_map.
  rewrite slice_to_all by lia.
  repeat split; assumption.
Qed.

Lemma search_local_empty_query_returns_all_witness :
  (forall m, In m (loaded alpha_store) -> wordless (mem_content m) = false) /\
  (Z.of_nat (List.length (loaded alpha_store)) <= 5)%Z /\
  exists res,
    search_local "" 5 alpha_store = (Ok res, alpha_store) /\
    Permutation res (map (entry "") (loaded alpha_store)) /\
    List.length res = List.length (loaded alpha_store).
Proof.
  assert (Hs : forall m, In m (loaded alpha_store) ->
                         wordless (mem_content m) = false).
  { intros m [<-|[<-|[<-|[]]]]; reflexivity. }
  assert (Hl : (Z.of_nat (List.length (loaded alpha_store)) <= 5)%Z)
    by (simpl; lia).
  split; [exact Hs|]. split; [exact Hl|].
  exact (search_local_empty_query_returns_all alpha_store 5%Z Hs Hl).
Defined.

(** ** Further properties of [store] *)

Lemma local_id_injective (a b : nat) : local_id a = local_id b -> a = b.
Proof.
  intros H. apply (f_equal id_suffix) in H.
  rewrite !id_suffix_local_id in H. congruence.
Qed.

Lemma numbered_nodup (w : World) :
  numbered w -> NoDup (map mem_id (loaded w)).
Proof.
  intros H. rewrite H.
  apply Finite.Injective_map_NoDup; [|apply seq_NoDup].
  intros a b. apply local_id_injective.
Qed.

(** X5: [store] keeps the ids of the file numbered.  If the file lists
    the ids local_1, local_2, ... in order, it still does after [store],
    whether the write went through or failed, and so no two records of
    the file share an id. *)
Theorem store_keeps_ids_numbered
    (w : World) (content : string) (metadata : Metadata) :
  numbered w ->
  numbered (snd (store pathlib_Path content metadata w)) /\
  NoDup (map mem_id (loaded (snd (store pathlib_Path content metadata w)))).
Proof.
  intros H.
  assert (K : numbered (snd (store pathlib_Path content metadata w))).
  { rewrite store_eq by reflexivity. cbn [snd].
    destruct (write_fault w) as [[e|e]|] eqn:Hf.
    - rewrite (save_memories_fault _ _ _ Hf). exact H.
    - rewrite (save_memories_fault _ _ _ Hf). reflexivity.
    - rewrite (save_memories_ok _ _ Hf). unfold numbered.
      change (loaded _) with (loaded w ++ [new_record w content metadata]).
      rewrite map_app, length_app, seq_app, map_app, H. simpl.
      now rewrite Nat.add_comm. }
  split; [exact K | now apply numbered_nodup].
Qed.

Lemma store_keeps_ids_numbered_witness :
  numbered noted_store /\
  numbered (snd (store pathlib_Path "Frontend uses React" [] noted_store)) /\
  NoDup (map mem_id
           (loaded (snd (store pathlib_Path "Frontend uses React" []
                           noted_store)))).
Proof.
  assert (H : numbered noted_store) by reflexivity.
  split; [exact H|].
  exact (store_keeps_ids_numbered noted_store "Frontend uses React" [] H).
Defined.

(** X6: [store] on a file that exists but cannot be read as JSON does not
    fail: it takes the store for empty and returns local_1.  When the
    write goes through, the file is overwritten with that single record;
    when the write fails, the file stays unreadable and one line "Failed
    to save memories: ..." is printed. *)
Theorem store_on_unreadable_file_starts_over
    (w : World) (content : string) (metadata : Metadata) :
  memory_file w = Corrupt ->
  store pathlib_Path content metadata w
  = (Ok "local_1",
     match write_fault w with
     | None =>
         mkWorld (Stored [mkMemory "local_1" content metadata "unknown"])
           None (stdout w)
     | Some fault =>
         mkWorld Corrupt (Some fault)
           (stdout w
            ++ [("Failed to save memories: " ++ fault_msg fault)%string])
     end).
Proof.
  intros Hc. rewrite store_eq by reflexivity.
  assert (E : loaded w = []) by (unfold loaded; now rewrite Hc).
  unfold new_record. rewrite E. simpl List.length. simpl app.
  change (local_id (0 + 1)) with "local_1".
  destruct (write_fault w) as [fault|] eqn:Hf.
  - rewrite (save_memories_fault _ _ _ Hf). cbn [snd].
    rewrite Hc. now destruct fault.
  - now rewrite (save_memories_ok _ _ Hf).
Qed.

Lemma store_on_unreadable_file_starts_over_witness :
  memory_file unreadable_store = Corrupt /\
  store pathlib_Path "note" [] unreadable_store
  = (Ok "local_1",
     match write_fault unreadable_store with
     | None =>
         mkWorld (Stored [mkMemory "local_1" "note" [] "unknown"]) None
           (stdout unreadable_store)
     | Some fault =>
         mkWorld Corrupt (Some fault)
           (stdout unreadable_store
            ++ [("Failed to save memories: " ++ fault_msg fault)%string])
     end).
Proof.
  assert (Hc : memory_file unreadable_store = Corrupt) by reflexivity.
  split; [exact Hc|].
  exact (store_on_unreadable_file_starts_over unreadable_store "note" [] Hc).
Defined.

Example store_on_unreadable_file_refused :
  store pathlib_Path "note" []
    (mkWorld Corrupt (Some (OpenFails "[Errno 13] Permission denied")) [])
  = (Ok "local_1",
     mkWorld Corrupt (Some (OpenFails "[Errno 13] Permission denied"))
       ["Failed to save memories: [Errno 13] Permission denied"]).
Proof. reflexivity. Qed.

Lemma search_nothing_loaded (w : World) (query : string) (limit : Z) :
  loaded w = [] -> search_local query limit w = (Ok [], w).
Proof.
  intros E. rewrite search_local_eq, E. simpl.
  destruct (slice_to_firstn (@nil Match) limit) as [n ->].
  now rewrite firstn_nil.
Qed.

(** X7: a [store] whose dump breaks off loses the whole store.  The call
    still returns the new id, but afterwards [get_all_local] and every
    [search_local] return the empty list, whatever the file held before. *)
Theorem store_failed_dump_empties_store
    (w : World) (content : string) (metadata : Metadata) (e : string) :
  write_fault w = Some (DumpFails e) ->
  exists w',
    store pathlib_Path content metadata w
    = (Ok ("local_" ++ str_of_nat (List.length (loaded w) + 1))%string, w') /\
    get_all_local w' = (Ok [], w') /\
    forall query limit, search_local query limit w' = (Ok [], w').
Proof.
  intros Hf. rewrite store_eq by reflexivity.
  rewrite (save_memories_fault _ _ _ Hf). cbn [snd].
  eexists. split; [reflexivity|].
  split; [reflexivity|].
  intros query limit. now apply search_nothing_loaded.
Qed.

Lemma store_failed_dump_empties_store_witness :
  write_fault full_disk
  = Some (DumpFails "[Errno 28] No space left on device") /\
  exists w',
    store pathlib_Path "note" [] full_disk
    = (Ok ("local_" ++ str_of_nat (List.length (loaded full_disk) + 1))%string,
       w') /\
    get_all_local w' = (Ok [], w') /\
    forall query limit, search_local query limit w' = (Ok [], w').
Proof.
  assert (Hf : write_fault full_disk
               = Some (DumpFails "[Errno 28] No space left on device"))
    by reflexivity.
  split; [exact Hf|].
  exact (store_failed_dump_empties_store full_disk "note" [] _ Hf).
Defined.

(** ** Properties of [SimpleMemory] over the local fallback *)

Lemma add_eq (content : string) (metadata : option Metadata) (w : World) :
  SimpleMemory.add content metadata w
  = store pathlib_Path content (SimpleMemory.or_empty metadata) w.
Proof.
  unfold SimpleMemory.add, try_except.
  now rewrite store_eq by reflexivity.
Qed.

Lemma local_id_not_error (n : nat) : local_id n <> "error".
Proof. unfold local_id. simpl. discriminate. Qed.

(** X8: on the local fallback [add] never answers "error" and never
    raises: it returns the next id, also when the write failed and the
    record is not in the file afterwards. *)
Theorem add_returns_id_even_unsaved
    (w : World) (content : string) (metadata : option Metadata) :
  exists i w',
    SimpleMemory.add content metadata w = (Ok i, w') /\
    i = ("local_" ++ str_of_nat (List.length (loaded w) + 1))%string /\
    i <> "error" /\
    loaded w' =
    match write_fault w with
    | None =>
        loaded w ++
        [mkMemory i content (SimpleMemory.or_empty metadata) "unknown"]
    | Some (OpenFails _) => loaded w
    | Some (DumpFails _) => []
    end.
Proof.
  rewrite add_eq, store_eq by reflexivity.
  eexists. eexists. split; [reflexivity|]. split; [reflexivity|].
  split; [apply local_id_not_error|].
  destruct (write_fault w) as [[e|e]|] eqn:Hf.
  - now rewrite (save_memories_fault _ _ _ Hf).
  - now rewrite (save_memories_fault _ _ _ Hf).
  - now rewrite (save_memories_ok _ _ Hf).
Qed.

Lemma search_eq (query : string) (limit : Z) (w : World) :
  SimpleMemory.search query limit w =
  if forallb (scorable query) (loaded w)
  then (Ok (slice_to (sort_reverse m_score
                        (map (entry query)
                           (filter (matching query) (loaded w)))) limit), w)
  else (Ok [], printed "Memory search failed: division by zero" w).
Proof.
  unfold SimpleMemory.search, try_except. rewrite search_local_eq.
  now destruct (forallb (scorable query) (loaded w)).
Qed.

Lemma not_scorable (query : string) (ms : list Memory) (m : Memory) :
  In m ms -> matching query m = true -> wordless (mem_content m) = true ->
  forallb (scorable query) ms = false.
Proof.
  intros Hm Hq Hw. apply not_true_is_false. intros Hall.
  rewrite forallb_forall in Hall. specialize (Hall m Hm).
  unfold scorable in Hall. rewrite Hq, Hw in Hall. discriminate.
Qed.

(** X9: [search] never raises and never touches the file; what it
    returns is what [search_local] returns, or the empty list when
    [search_local] raised. *)
Theorem search_never_raises (w : World) (query : string) (limit : Z) :
  exists res w',
    SimpleMemory.search query limit w = (Ok res, w') /\
    memory_file w' = memory_file w /\
    (fst (search_local query limit w) = Ok res \/
     res = [] /\ exists e, fst (search_local query limit w) = Raise e).
Proof.
  rewrite search_eq, search_local_eq.
  destruct (forallb (scorable query) (loaded w)).
  - eexists. eexists. split; [reflexivity|]. split; [reflexivity|]. now left.
  - eexists. eexists. split; [reflexivity|]. split; [reflexivity|].
    right. split; [reflexivity|]. now exists ZeroDivisionError.
Qed.

(** X10: one stored content of whitespace only blanks the search.  For
    every query that content matches, [search] prints "Memory search
    failed: division by zero" and returns the empty list, whatever other
    records match. *)
Theorem search_hides_matches_behind_blank_record
    (w : World) (query : string) (limit : Z) (m : Memory) :
  In m (loaded w) ->
  matching query m = true ->
  wordless (mem_content m) = true ->
  SimpleMemory.search query limit w
  = (Ok [], printed "Memory search failed: division by zero" w).
Proof.
  intros Hm Hq Hw. rewrite search_eq.
  now rewrite (not_scorable _ _ _ Hm Hq Hw).
Qed.

Lemma search_hides_matches_behind_blank_record_witness :
  In (mkMemory "local_2" " " [] "unknown") (loaded blank_store) /\
  matching " " (mkMemory "local_2" " " [] "unknown") = true /\
  wordless (mem_content (mkMemory "local_2" " " [] "unknown")) = true /\
  matching " " (mkMemory "local_1" "alpha beta" [] "unknown") = true /\
  SimpleMemory.search " " 5 blank_store
  = (Ok [], printed "Memory search failed: division by zero" blank_store).
Proof.
  assert (Hm : In (mkMemory "local_2" " " [] "unknown") (loaded blank_store))
    by (simpl; auto).
  assert (Hq : matching " " (mkMemory "local_2" " " [] "unknown") = true)
    by reflexivity.
  assert (Hw : wordless (mem_content (mkMemory "local_2" " " [] "unknown"))
               = true) by reflexivity.
  split; [exact Hm|]. split; [exact Hq|]. split; [exact Hw|].
  split; [reflexivity|].
  exact (search_hides_matches_behind_blank_record blank_store " " 5%Z _
           Hm Hq Hw).
Defined.

Lemma search_results_match (query : string) (limit : Z) (w w' : World)
    (res : list Match) :
  SimpleMemory.search query limit w = (Ok res, w') ->
  forall e, In e res -> contains (lower query) (lower (m_content e)) = true.
Proof.
  intros H e He.
  destruct (forallb (scorable query) (loaded w)) eqn:Hs.
  - assert (K : fst (search_local query limit w) = Ok res).
    { rewrite search_eq, Hs in H. rewrite search_local_eq, Hs.
      simpl. congruence. }
    destruct (in_search_result _ _ _ _ _ K He) as (m & _ & Hq & ->).
    exact Hq.
  - rewrite search_eq, Hs in H. injection H as <- _. contradiction.
Qed.

Lemma match_content_nonempty (query content : string) :
  query <> "" -> contains (lower query) (lower content) = true ->
  content <> "".
Proof.
  intros Hq H E. subst content. simpl in H. apply contains_in_empty in H.
  apply (proj1 (lower_eq_empty query)) in H. congruence.
Qed.

Lemma context_loop (shown : list Match) (start : nat) (acc : list string) :
  (forall e, In e shown -> m_content e <> "") ->
  for_each SimpleMemory.context_step (enumerate start shown) acc
  = Ok (acc ++
        map (fun item : nat * Match =>
               (str_of_nat (fst item) ++ ". " ++ m_content (snd item))%string)
          (enumerate start shown)).
Proof.
  revert start acc; induction shown as [|e shown IH]; intros start acc H; simpl.
  - now rewrite app_nil_r.
  - destruct (m_content e) eqn:E.
    + elim (H e); [now left | exact E].
    + rewrite IH by (intros x Hx; apply H; now right).
      now rewrite <- app_assoc.
Qed.

Lemma get_context_eq (topic : string) (limit : Z) (w w' : World)
    (res : list Match) :
  topic <> "" -> res <> [] ->
  SimpleMemory.search topic limit w = (Ok res, w') ->
  SimpleMemory.get_context topic limit w
  = (Ok (context_text topic (slice_to res limit)), w').
Proof.
  intros Ht Hr H. unfold SimpleMemory.get_context, bind. rewrite H.
  destruct res as [|r rs]; [congruence|].
  unfold lift. rewrite context_loop.
  - unfold context_text, numbered_lines. simpl app.
    now destruct (map _ (enumerate 1 (slice_to (r :: rs) limit))).
  - intros e He. apply in_slice_to in He.
    apply (match_content_nonempty topic); [exact Ht|].
    now apply (search_results_match _ _ _ _ _ H).
Qed.

Lemma slice_to_twice {A : Type} (l : list A) (limit : Z) :
  (0 <= limit)%Z -> slice_to (slice_to l limit) limit = slice_to l limit.
Proof.
  intros H. unfold slice_to.
  destruct (Z.leb_spec 0 limit); [|lia].
  rewrite firstn_firstn. f_equal. lia.
Qed.

Lemma search_result_sliced (query : string) (limit : Z) (w w' : World)
    (res : list Match) :
  SimpleMemory.search query limit w = (Ok res, w') ->
  res <> [] ->
  exists l : list Match, res = slice_to l limit.
Proof.
  intros H Hr. rewrite search_eq in H.
  destruct (forallb (scorable query) (loaded w)).
  - injection H as <- _. eauto.
  - injection H as <- _. congruence.
Qed.

Lemma enumerate_length {A : Type} (start : nat) (l : list A) :
  List.length (enumerate start l) = List.length l.
Proof.
  revert start; induction l as [|x l IH]; intros start; simpl;
    [reflexivity | now rewrite IH].
Qed.

(** X11: for a non-empty topic and a limit of at least 0, [get_context]
    lists every entry [search] returned, none skipped, numbered 1, 2, ...
    in the order of the search result, under the heading "Relevant
    context for '<topic>':". *)
Theorem get_context_lists_every_result
    (w w' : World) (topic : string) (limit : Z) (r : Match) (rs : list Match) :
  topic <> "" -> (0 <= limit)%Z ->
  SimpleMemory.search topic limit w = (Ok (r :: rs), w') ->
  SimpleMemory.get_context topic limit w
  = (Ok ("Relevant context for '" ++ topic ++ "':" ++ newline
         ++ join newline (numbered_lines (r :: rs)))%string, w') /\
  List.length (numbered_lines (r :: rs)) = List.length (r :: rs).
Proof.
  intros Ht Hl H. split.
  - rewrite (get_context_eq topic limit w w' (r :: rs) Ht) by
      (assumption || discriminate).
    destruct (search_result_sliced _ _ _ _ _ H) as [l E]; [discriminate|].
    rewrite E, slice_to_twice, <- E by assumption.
    reflexivity.
  - unfold numbered_lines. now rewrite length_map, enumerate_length.
Qed.

Lemma get_context_lists_every_result_witness :
  "React" <> "" /\ (0 <= 3)%Z /\
  SimpleMemory.search "React" 3 mixed_store
  = (Ok [mkMatch "react react native" (2 # 3)%Q "local_3";
         mkMatch "Use React" (1 # 2)%Q "local_1";
         mkMatch "we like REACT a lot" (1 # 5)%Q "local_4"], mixed_store) /\
  SimpleMemory.get_context "React" 3 mixed_store
  = (Ok ("Relevant context for 'React':" ++ newline
         ++ join newline
              (numbered_lines
                 [mkMatch "react react native" (2 # 3)%Q "local_3";
                  mkMatch "Use React" (1 # 2)%Q "local_1";
                  mkMatch "we like REACT a lot" (1 # 5)%Q "local_4"]))%string,
     mixed_store) /\
  List.length
    (numbered_lines
       [mkMatch "react react native" (2 # 3)%Q "local_3";
        mkMatch "Use React" (1 # 2)%Q "local_1";
        mkMatch "we like REACT a lot" (1 # 5)%Q "local_4"])
  = List.length
      [mkMatch "react react native" (2 # 3)%Q "local_3";
       mkMatch "Use React" (1 # 2)%Q "local_1";
       mkMatch "we like REACT a lot" (1 # 5)%Q "local_4"].
Proof.
  assert (Ht : "React" <> "") by discriminate.
  assert (Hl : (0 <= 3)%Z) by lia.
  assert (H : SimpleMemory.search "React" 3 mixed_store
              = (Ok [mkMatch "react react native" (2 # 3)%Q "local_3";
                     mkMatch "Use React" (1 # 2)%Q "local_1";
                     mkMatch "we like REACT a lot" (1 # 5)%Q "local_4"],
                 mixed_store)) by reflexivity.
  split; [exact Ht|]. split; [exact Hl|]. split; [exact H|].
  exact (get_context_lists_every_result mixed_store mixed_store "React" 3%Z
           _ _ Ht Hl H).
Defined.

Example get_context_text :
  fst (SimpleMemory.get_context "React" 2 mixed_store)
  = Ok ("Relevant context for 'React':" ++ newline
        ++ "1. react react native" ++ newline ++ "2. Use React")%string.
Proof. reflexivity. Qed.

Lemma get_context_nothing_found (topic : string) (limit : Z) (w w' : World) :
  SimpleMemory.search topic limit w = (Ok [], w') ->
  SimpleMemory.get_context topic limit w
  = (Ok ("No memory found for: " ++ topic)%string, w').
Proof.
  intros H. unfold SimpleMemory.get_context, bind. now rewrite H.
Qed.

(** X12: with a negative limit [get_context] cuts twice.  For a
    non-empty topic, a limit below 0 and a store where no record matching
    the topic has a non-empty content without words, [search] returns the
    sorted matches without their last [-limit] entries.  When that is
    empty, [get_context] answers "No memory found for: <topic>";
    otherwise [results[:limit]] drops [-limit] more, so it lists the
    sorted matches without their last [2 * -limit] entries, and answers
    "No relevant context found for: <topic>" when nothing is left to
    list. *)
Theorem get_context_negative_limit_cuts_twice
    (w : World) (topic : string) (limit : Z) :
  topic <> "" -> (limit < 0)%Z ->
  (forall m, In m (loaded w) -> matching topic m = true ->
             wordless (mem_content m) = false) ->
  SimpleMemory.search topic limit w
  = (Ok (firstn
           (List.length (filter (matching topic) (loaded w))
            - Z.to_nat (- limit))
           (sort_reverse m_score
              (map (entry topic) (filter (matching topic) (loaded w))))),
     w) /\
  SimpleMemory.get_context topic limit w
  = (Ok (if (List.length (filter (matching topic) (loaded w))
             <=? Z.to_nat (- limit))%nat
         then ("No memory found for: " ++ topic)%string
         else
           match
             numbered_lines
               (firstn
                  (List.length (filter (matching topic) (loaded w))
                   - 2 * Z.to_nat (- limit))
                  (sort_reverse m_score
                     (map (entry topic)
                        (filter (matching topic) (loaded w)))))
           with
           | [] => ("No relevant context found for: " ++ topic)%string
           | line :: more =>
               ("Relevant context for '" ++ topic ++ "':" ++ newline
                ++ join newline (line :: more))%string
           end), w).
Proof.
  intros Ht Hl Hs.
  set (sorted := sort_reverse m_score
                   (map (entry topic) (filter (matching topic) (loaded w)))).
  set (n := List.length (filter (matching topic) (loaded w))).
  set (k := Z.to_nat (- limit)).
  assert (Hn : List.length sorted = n) by apply sorted_matches_length.
  assert (Hsearch : SimpleMemory.search topic limit w
                    = (Ok (firstn (n - k) sorted), w)).
  { rewrite search_eq, (scorable_all _ _ Hs). fold sorted.
    unfold slice_to. destruct (Z.leb_spec 0 limit); [lia|].
    fold k. now rewrite Hn. }
  split; [exact Hsearch|].
  destruct (Nat.leb_spec n k) as [Hle|Hgt].
  - apply get_context_nothing_found.
    rewrite Hsearch. replace (n - k) with 0 by lia. reflexivity.
  - assert (Hr : firstn (n - k) sorted <> []).
    { intros E. apply (f_equal (@List.length Match)) in E.
      rewrite length_firstn in E. simpl in E. lia. }
    rewrite (get_context_eq topic limit w w _ Ht Hr Hsearch).
    unfold context_text, slice_to.
    destruct (Z.leb_spec 0 limit); [lia|]. fold k.
    rewrite length_firstn, firstn_firstn, Hn.
    replace (Nat.min (Nat.min (n - k) n - k) (n - k)) with (n - 2 * k) by lia.
    reflexivity.
Qed.

Lemma get_context_negative_limit_cuts_twice_witness :
  "React" <> "" /\ (-1 < 0)%Z /\
  (forall m, In m (loaded mixed_store) -> matching "React" m = true ->
             wordless (mem_content m) = false) /\
  SimpleMemory.search "React" (-1) mixed_store
  = (Ok (firstn
           (List.length (filter (matching "React") (loaded mixed_store))
            - Z.to_nat (- -1))
           (sort_reverse m_score
              (map (entry "React")
                 (filter (matching "React") (loaded mixed_store))))),
     mixed_store) /\
  SimpleMemory.get_context "React" (-1) mixed_store
  = (Ok (if (List.length (filter (matching "React") (loaded mixed_store))
             <=? Z.to_nat (- -1))%nat
         then ("No memory found for: " ++ "React")%string
         else
           match
             numbered_lines
               (firstn
                  (List.length (filter (matching "React") (loaded mixed_store))
                   - 2 * Z.to_nat (- -1))
                  (sort_reverse m_score
                     (map (entry "React")
                        (filter (matching "React") (loaded mixed_store)))))
           with
           | [] => ("No relevant context found for: " ++ "React")%string
           | line :: more =>
               ("Relevant context for '" ++ "React" ++ "':" ++ newline
                ++ join newline (line :: more))%string
           end), mixed_store).
Proof.
  assert (Ht : "React" <> "") by discriminate.
  assert (Hl : (-1 < 0)%Z) by lia.
  assert (Hs : forall m, In m (loaded mixed_store) ->
                         matching "React" m = true ->
                         wordless (mem_content m) = false).
  { intros m [<-|[<-|[<-|[<-|[]]]]] _; reflexivity. }
  split; [exact Ht|]. split; [exact Hl|]. split; [exact Hs|].
  exact (get_context_negative_limit_cuts_twice mixed_store "React" (-1)%Z
           Ht Hl Hs).
Defined.

Example get_context_negative_nothing_left :
  fst (SimpleMemory.get_context "React" (-3) mixed_store)
  = Ok "No memory found for: React" /\
  fst (SimpleMemory.get_context "react" (-1)
         (fresh (Stored [mkMemory "local_1" "Use React" [] "unknown";
                         mkMemory "local_2" "react native" [] "unknown"])))
  = Ok "No relevant context found for: react".
Proof. split; reflexivity. Qed.

Example get_context_negative_text :
  fst (SimpleMemory.get_context "React" (-1) mixed_store)
  = Ok ("Relevant context for 'React':" ++ newline
        ++ "1. react react native")%string.
Proof. reflexivity. Qed.

(** X13: a stored content of whitespace only turns [get_context] into
    "No memory found for: <topic>" for every topic that content matches:
    the division error of the search is printed and reported as nothing
    found, whatever other records match. *)
Theorem get_context_reports_nothing_behind_blank_record
    (w : World) (topic : string) (limit : Z) (m : Memory) :
  In m (loaded w) ->
  matching topic m = true ->
  wordless (mem_content m) = true ->
  SimpleMemory.get_context topic limit w
  = (Ok ("No memory found for: " ++ topic)%string,
     printed "Memory search failed: division by zero" w).
Proof.
  intros Hm Hq Hw. unfold SimpleMemory.get_context, bind.
  rewrite search_eq, (not_scorable _ _ _ Hm Hq Hw). reflexivity.
Qed.

Lemma get_context_reports_nothing_behind_blank_record_witness :
  In (mkMemory "local_2" " " [] "unknown") (loaded blank_store) /\
  matching " " (mkMemory "local_2" " " [] "unknown") = true /\
  wordless (mem_content (mkMemory "local_2" " " [] "unknown")) = true /\
  SimpleMemory.get_context " " 3 blank_store
  = (Ok ("No memory found for: " ++ " ")%string,
     printed "Memory search failed: division by zero" blank_store).
Proof.
  assert (Hm : In (mkMemory "local_2" " " [] "unknown") (loaded blank_store))
    by (simpl; auto).
  assert (Hq : matching " " (mkMemory "local_2" " " [] "unknown") = true)
    by reflexivity.
  assert (Hw : wordless (mem_content (mkMemory "local_2" " " [] "unknown"))
               = true) by reflexivity.
  split; [exact Hm|]. split; [exact Hq|]. split; [exact Hw|].
  exact (get_context_reports_nothing_behind_blank_record blank_store " " 3%Z
           _ Hm Hq Hw).
Defined.

(** ** Facts about [strip] and [split] on a separator *)

Section StripFacts.

Lemma lstrip_all_space (s : string) : all_space s = true -> lstrip s = "".
Proof.
  induction s as [|c t IH]; simpl; [reflexivity|].
  intros H. apply andb_prop in H as [Hc Ht]. rewrite Hc. now apply IH.
Qed.

Lemma lstrip_head (s : string) :
  lstrip s = "" \/ exists c t, lstrip s = String c t /\ isspace c = false.
Proof.
  induction s as [|c t IH]; simpl; [now left|].
  destruct (isspace c) eqn:E; [exact IH|].
  right. now exists c, t.
Qed.

Lemma lstrip_word (s : string) : all_space s = false -> lstrip s <> "".
Proof.
  induction s as [|c t IH]; simpl; [discriminate|].
  destruct (isspace c); simpl; [exact IH | discriminate].
Qed.

Lemma rstrip_head (c : ascii) (t : string) :
  isspace c = false -> exists r, rstrip (String c t) = String c r.
Proof.
  intros H. simpl. rewrite H. destruct (rstrip t); eauto.
Qed.

Lemma rstrip_word (s : string) :
  rstrip s <> "" -> all_space (rstrip s) = false.
Proof.
  induction s as [|c t IH]; simpl; [congruence|].
  destruct (rstrip t) as [|d r] eqn:E.
  - destruct (isspace c) eqn:Ec; [congruence|]. intros _. simpl. now rewrite Ec.
  - intros _. change (all_space (String c (String d r)))
      with (isspace c && all_space (String d r)).
    rewrite IH by discriminate. apply andb_false_r.
Qed.



Lemma strip_empty_iff (s : string) : strip s = "" <-> all_space s = true.
Proof.
  unfold strip. split.
  - intros H. destruct (all_space s) eqn:E; [reflexivity|].
    destruct (lstrip_head s) as [K | (c & t & K & Hc)].
    + now elim (lstrip_word s E).
    + rewrite K in H. destruct (rstrip_head c t Hc) as [r Hr]. congruence.
  - intros H. now rewrite lstrip_all_space.
Qed.

(** A stripped string is empty or holds a word. *)
Lemma strip_wordless (s : string) : wordless (strip s) = false.
Proof.
  unfold wordless. destruct (strip s) eqn:E; [reflexivity|].
  rewrite <- E. unfold strip. apply rstrip_word. fold (strip s). congruence.
Qed.









End StripFacts.

(** ** Properties of the views of [ui.py] *)

Lemma remember_eq (text : string) (tags : list string) (w : World) :
  remember text (Some tags) w
  = store pathlib_Path text (tags_metadata tags) w.
Proof.
  unfold remember. rewrite add_eq. now destruct tags.
Qed.

Lemma add_memory_post (form : list (string * string)) (w : World)
    (c : ascii) (t : string) :
  strip (field_get_content form) = String c t ->
  UI.add_memory "POST" form w
  = (Ok (UI.redirect_to "index"),
     snd (store pathlib_Path (String c t)
            (tags_metadata (parsed_tags (UI.field_get form "tags" ""))) w)).
Proof.
  unfold field_get_content. intros E.
  unfold UI.add_memory. rewrite String.eqb_refl, E.
  unfold try_except, bind, parsed_tags.
  destruct (strip (UI.field_get form "tags" "")) as [|d r].
  - unfold ret. cbv beta iota.
    rewrite remember_eq, store_eq by reflexivity. reflexivity.
  - unfold lift, split_sep, ret. cbv beta iota.
    rewrite remember_eq, store_eq by reflexivity. reflexivity.
Qed.

(** X14: a POST to [/add] whose content is missing, empty or whitespace
    only is refused with "Content is required"; nothing is stored or
    printed. *)
Theorem add_memory_rejects_blank_content
    (form : list (string * string)) (w : World) :
  all_space (UI.field_get form "content" "") = true ->
  UI.add_memory "POST" form w
  = (Ok (UI.render_template "add.html"
           [("error", UI.AStr "Content is required")]), w).
Proof.
  intros H. apply strip_empty_iff in H.
  unfold UI.add_memory. now rewrite String.eqb_refl, H.
Qed.

Lemma add_memory_rejects_blank_content_witness :
  all_space (UI.field_get [("tags", "ui, db")] "content" "") = true /\
  UI.add_memory "POST" [("tags", "ui, db")] noted_store
  = (Ok (UI.render_template "add.html"
           [("error", UI.AStr "Content is required")]), noted_store).
Proof.
  assert (H : all_space (UI.field_get [("tags", "ui, db")] "content" "")
              = true) by reflexivity.
  split; [exact H|].
  exact (add_memory_rejects_blank_content [("tags", "ui, db")] noted_store H).
Defined.




Example add_memory_posted :
  UI.add_memory "POST" (add_form "  Frontend uses React " " ui , ,web,")
    noted_store
  = (Ok (UI.redirect_to "index"),
     fresh (Stored [mkMemory "local_1" "Database uses PostgreSQL" []
                      "unknown";
                    mkMemory "local_2" "Frontend uses React"
                      [("tags", JArr [JStr "ui"; JStr "web"])] "unknown"])).
Proof. reflexivity. Qed.

(** X16: a POST to [/add] redirects to the index also when the write
    failed: the view does not look at what [remember] returned, the
    record is not in the store afterwards, and the only trace is the line
    "Failed to save memories: ..." on standard output. *)
Theorem add_memory_redirects_when_write_fails
    (form : list (string * string)) (w : World) (fault : WriteFault) :
  write_fault w = Some fault ->
  all_space (UI.field_get form "content" "") = false ->
  exists w',
    UI.add_memory "POST" form w = (Ok (UI.redirect_to "index"), w') /\
    loaded w' = match fault with
                | OpenFails _ => loaded w
                | DumpFails _ => []
                end /\
    stdout w'
    = stdout w ++ [("Failed to save memories: " ++ fault_msg fault)%string].
Proof.
  intros Hf Hc.
  destruct (strip (UI.field_get form "content" "")) as [|c t] eqn:E.
  { apply strip_empty_iff in E. congruence. }
  rewrite (add_memory_post form w c t E), store_eq by reflexivity.
  cbn [snd]. rewrite (save_memories_fault _ _ _ Hf). cbn [snd].
  eexists. split; [reflexivity|]. split; [|reflexivity].
  now destruct fault.
Qed.

Lemma add_memory_redirects_when_write_fails_witness :
  write_fault read_only_disk
  = Some (OpenFails "[Errno 13] Permission denied") /\
  all_space (UI.field_get (add_form "note" "") "content" "") = false /\
  exists w',
    UI.add_memory "POST" (add_form "note" "") read_only_disk
    = (Ok (UI.redirect_to "index"), w') /\
    loaded w' = loaded read_only_disk /\
    stdout w'
    = stdout read_only_disk
      ++ [("Failed to save memories: "
           ++ fault_msg (OpenFails "[Errno 13] Permission denied"))%string].
Proof.
  assert (Hf : write_fault read_only_disk
               = Some (OpenFails "[Errno 13] Permission denied"))
    by reflexivity.
  assert (Hc : all_space (UI.field_get (add_form "note" "") "content" "")
               = false) by reflexivity.
  split; [exact Hf|]. split; [exact Hc|].
  exact (add_memory_redirects_when_write_fails (add_form "note" "")
           read_only_disk _ Hf Hc).
Defined.

Lemma searchable_returns (w : World) (query : string) (limit : Z) :
  searchable w -> exists res, search_local query limit w = (Ok res, w).
Proof.
  intros H. rewrite search_local_eq.
  rewrite scorable_all by (intros m Hm _; now apply H).
  eauto.
Qed.

Lemma store_keeps_searchable (w : World) (content : string)
    (metadata : Metadata) :
  searchable w -> wordless content = false ->
  searchable (snd (store pathlib_Path content metadata w)).
Proof.
  intros H Hc. rewrite store_eq by reflexivity. cbn [snd].
  destruct (write_fault w) as [[e|e]|] eqn:Hf.
  - rewrite (save_memories_fault _ _ _ Hf). exact H.
  - rewrite (save_memories_fault _ _ _ Hf). intros m [].
  - rewrite (save_memories_ok _ _ Hf). intros m Hm.
    change (In m (loaded w ++ [new_record w content metadata])) in Hm.
    apply in_app_or in Hm as [Hm|[<-|[]]]; [now apply H | exact Hc].
Qed.

(** X17: the view of [/add] keeps the store free of whitespace-only
    contents, whatever the method, the form and the state of the disk;
    and on such a store [search_local] returns for every query and limit,
    so records entered through the form never bring the division by
    zero about. *)
Theorem add_memory_keeps_store_searchable
    (w : World) (method : string) (form : list (string * string)) :
  searchable w ->
  searchable (snd (UI.add_memory method form w)) /\
  forall query limit,
  exists res,
    search_local query limit (snd (UI.add_memory method form w))
    = (Ok res, snd (UI.add_memory method form w)).
Proof.
  intros H.
  assert (K : searchable (snd (UI.add_memory method form w))).
  { destruct (String.eqb_spec method "POST") as [->|Hm].
    - destruct (strip (UI.field_get form "content" "")) as [|c t] eqn:E.
      + unfold UI.add_memory. now rewrite String.eqb_refl, E.
      + rewrite (add_memory_post form w c t E). cbn [snd].
        apply store_keeps_searchable; [exact H|].
        rewrite <- E. apply strip_wordless.
    - unfold UI.add_memory.
      destruct (String.eqb_spec method "POST"); [congruence | exact H]. }
  split; [exact K|].
  intros query limit. now apply searchable_returns.
Qed.

Lemma add_memory_keeps_store_searchable_witness :
  searchable noted_store /\
  searchable (snd (UI.add_memory "POST" (add_form " React " "ui")
                     noted_store)) /\
  forall query limit,
  exists res,
    search_local query limit
      (snd (UI.add_memory "POST" (add_form " React " "ui") noted_store))
    = (Ok res,
       snd (UI.add_memory "POST" (add_form " React " "ui") noted_store)).
Proof.
  assert (H : searchable noted_store).
  { intros m [<-|[]]. reflexivity. }
  split; [exact H|].
  exact (add_memory_keeps_store_searchable noted_store "POST"
           (add_form " React " "ui") H).
Defined.

(** X18: [/api/clear] on an existing file, readable or not, writes the
    empty list and answers success; the numbering then starts over, the
    next [store] returning local_1 again. *)
Theorem api_clear_restarts_ids
    (w : World) (content : string) (metadata : Metadata) :
  memory_file w <> Absent -> write_fault w = None ->
  exists w',
    UI.api_clear w
    = (Ok (UI.jsonify [("success", JBool true);
                       ("message", JStr "All memories cleared")] 200), w') /\
    get_all_local w' = (Ok [], w') /\
    store pathlib_Path content metadata w'
    = (Ok "local_1",
       mkWorld (Stored [mkMemory "local_1" content metadata "unknown"]) None
         (stdout w)).
Proof.
  intros Hp Hf.
  exists (mkWorld (Stored []) None (stdout w)).
  split; [|split; reflexivity].
  unfold UI.api_clear, try_except, bind, UI.file_exists, UI.dump_empty_list.
  destruct (memory_file w); [congruence| |]; now rewrite Hf.
Qed.

Lemma api_clear_restarts_ids_witness :
  memory_file noted_store <> Absent /\
  write_fault noted_store = None /\
  exists w',
    UI.api_clear noted_store
    = (Ok (UI.jsonify [("success", JBool true);
                       ("message", JStr "All memories cleared")] 200), w') /\
    get_all_local w' = (Ok [], w') /\
    store pathlib_Path "note" [] w'
    = (Ok "local_1",
       mkWorld (Stored [mkMemory "local_1" "note" [] "unknown"]) None
         (stdout noted_store)).
Proof.
  assert (Hp : memory_file noted_store <> Absent) by discriminate.
  assert (Hf : write_fault noted_store = None) by reflexivity.
  split; [exact Hp|]. split; [exact Hf|].
  exact (api_clear_restarts_ids noted_store "note" [] Hp Hf).
Defined.

(** X19: when the write of [/api/clear] fails, the answer is status 500
    with the text of the error; if the dump broke off after the file was
    opened, the store is lost all the same and reads as empty. *)
Theorem api_clear_reports_write_failure (w : World) (fault : WriteFault) :
  memory_file w <> Absent -> write_fault w = Some fault ->
  exists w',
    UI.api_clear w
    = (Ok (UI.jsonify [("error", JStr (fault_msg fault))] 500), w') /\
    stdout w' = stdout w /\
    loaded w' = match fault with
                | OpenFails _ => loaded w
                | DumpFails _ => []
                end.
Proof.
  intros Hp Hf.
  unfold UI.api_clear, try_except, bind, UI.file_exists, UI.dump_empty_list.
  destruct (memory_file w) eqn:Hm; [congruence| |];
    rewrite Hf; destruct fault; eexists;
    (split; [reflexivity|]); (split; [reflexivity|]);
    unfold loaded; simpl; now rewrite ?Hm.
Qed.

Lemma api_clear_reports_write_failure_witness :
  memory_file full_disk <> Absent /\
  write_fault full_disk
  = Some (DumpFails "[Errno 28] No space left on device") /\
  exists w',
    UI.api_clear full_disk
    = (Ok (UI.jsonify
             [("error",
               JStr (fault_msg
                       (DumpFails "[Errno 28] No space left on device")))]
             500), w') /\
    stdout w' = stdout full_disk /\
    loaded w' = [].
Proof.
  assert (Hp : memory_file full_disk <> Absent) by discriminate.
  assert (Hf : write_fault full_disk
               = Some (DumpFails "[Errno 28] No space left on device"))
    by reflexivity.
  split; [exact Hp|]. split; [exact Hf|].
  exact (api_clear_reports_write_failure full_disk _ Hp Hf).
Defined.

Lemma sorted_matches_match (query : string) (limit : Z) (ms : list Memory)
    (e : Match) :
  In e (slice_to (sort_reverse m_score
                    (map (entry query) (filter (matching query) ms))) limit) ->
  contains (lower query) (lower (m_content e)) = true.
Proof.
  intros He. apply in_slice_to in He.
  apply (Permutation_in _ (sort_reverse_perm m_score _)) in He.
  apply in_map_iff in He as (m & <- & Hm).
  now apply filter_In in Hm as [_ Hm].
Qed.

(** X20: the view of [/search] never renders an error.  It shows at most
    20 results, each one matching the query, and leaves the file alone;
    without a query it does not search at all.  A failure of the search
    reaches the page as an empty result list. *)
Theorem search_page_never_shows_error
    (w : World) (args : list (string * string)) :
  exists results w',
    UI.search_page args w
    = (Ok (UI.render_template "search.html"
             [("query", UI.AStr (UI.field_get args "q" ""));
              ("results", UI.AMatches results)]), w') /\
    List.length results <= 20 /\
    memory_file w' = memory_file w /\
    (UI.field_get args "q" "" = "" -> results = [] /\ w' = w) /\
    forall e, In e results ->
      contains (lower (UI.field_get args "q" "")) (lower (m_content e)) = true.
Proof.
  unfold UI.search_page.
  destruct (UI.field_get args "q" "") as [|c t] eqn:Eq.
  - exists [], w. split; [reflexivity|]. split; [simpl; lia|].
    split; [reflexivity|]. split; [auto|]. intros e [].
  - unfold try_except, bind, search_memory. rewrite search_eq.
    destruct (forallb (scorable (String c t)) (loaded w)) eqn:E.
    + eexists. eexists. split; [reflexivity|].
      split; [rewrite slice_to_length; change (Z.to_nat 20) with 20;
              apply Nat.le_min_l|].
      split; [reflexivity|]. split; [discriminate|].
      apply sorted_matches_match.
    + eexists. eexists. split; [reflexivity|]. split; [simpl; lia|].
      split; [reflexivity|]. split; [discriminate|]. intros e [].
Qed.

Example search_page_blank_query :
  UI.search_page [("q", " ")] blank_store
  = (Ok (UI.render_template "search.html"
           [("query", UI.AStr " "); ("results", UI.AMatches [])]),
     printed "Memory search failed: division by zero" blank_store).
Proof. reflexivity. Qed.

Lemma scan_ports_spec (connect_ex : Z -> outcome Z) (n : nat) (p : Z)
    (r : option Z) :
  UI.scan_ports connect_ex p n = Ok r ->
  match r with
  | Some x =>
      (p <= x < p + Z.of_nat n)%Z /\
      (exists c, connect_ex x = Ok c /\ c <> 0%Z) /\
      forall q, (p <= q < x)%Z -> connect_ex q = Ok 0%Z
  | None =>
      forall q, (p <= q < p + Z.of_nat n)%Z -> connect_ex q = Ok 0%Z
  end.
Proof.
  revert p; induction n as [|n IH]; intros p H.
  - injection H as <-. intros q Hq. lia.
  - simpl UI.scan_ports in H.
    destruct (connect_ex p) as [c|e] eqn:Ec; [|discriminate].
    destruct (Z.eqb_spec c 0) as [->|Hc].
    + specialize (IH (p + 1)%Z H). destruct r as [x|].
      * destruct IH as (Hx & Hfree & Hbusy). split; [lia|].
        split; [exact Hfree|].
        intros q Hq. destruct (Z.eq_dec q p) as [->|Hne]; [exact Ec|].
        apply Hbusy. lia.
      * intros q Hq. destruct (Z.eq_dec q p) as [->|Hne]; [exact Ec|].
        apply IH. lia.
    + injection H as <-. split; [lia|]. split; [eauto|].
      intros q Hq. lia.
Qed.

(** X21: [find_available_port] answers the first port of the ten from
    [start_port] on whose connection attempt did not succeed, every port
    before it in the range being taken; it answers [None] only when all
    ten are taken. *)
Theorem find_available_port_first_free
    (connect_ex : Z -> outcome Z) (start_port : Z) (r : option Z) :
  UI.find_available_port connect_ex start_port = Ok r ->
  match r with
  | Some p =>
      (start_port <= p < start_port + 10)%Z /\
      (exists c, connect_ex p = Ok c /\ c <> 0%Z) /\
      forall q, (start_port <= q < p)%Z -> connect_ex q = Ok 0%Z
  | None =>
      forall q, (start_port <= q < start_port + 10)%Z ->
                connect_ex q = Ok 0%Z
  end.
Proof.
  intros H. apply (scan_ports_spec connect_ex 10 start_port r H).
Qed.

Lemma find_available_port_first_free_witness :
  UI.find_available_port busy_ports 5002 = Ok (Some 5005%Z) /\
  (5002 <= 5005 < 5002 + 10)%Z /\
  (exists c, busy_ports 5005 = Ok c /\ c <> 0%Z) /\
  forall q, (5002 <= q < 5005)%Z -> busy_ports q = Ok 0%Z.
Proof.
  assert (H : UI.find_available_port busy_ports 5002 = Ok (Some 5005%Z))
    by reflexivity.
  split; [exact H|].
  exact (find_available_port_first_free busy_ports 5002%Z (Some 5005%Z) H).
Defined.
